(** * Web session log-on of the Steam client (package steam, web.go)

    A shallow embedding of [Web], its packet handlers, [LogOn] and
    [apiLogOn], together with the two library routines whose output the
    handlers store ([strconv.FormatUint] and
    [base64.StdEncoding.EncodeToString]). *)

From Stdlib Require Import ZArith Lia Bool.
From Stdlib Require Import Strings.Byte Strings.Ascii Strings.String.
From stdpp Require Import base list strings gmap.

Local Open Scope Z_scope.

(** ** Go values *)

(** A Go [string] is an immutable sequence of bytes; [[]byte(s)] and
    [string(b)] convert without changing them. *)
Definition bytes := list byte.

Definition bytes_of_string (s : string) : bytes := list_byte_of_string s.
Definition string_of_bytes (b : bytes) : string := string_of_list_byte b.

Definition byte_to_Z (b : byte) : Z := Z.of_N (Byte.to_N b).
Definition byte_of_Z (z : Z) : byte :=
  match Byte.of_N (Z.to_N z) with
  | Some b => b
  | None => x00
  end.

(** A Go [error] value is carried by its message. *)
Inductive error : Type :=
| Err (msg : string).

Definition errors_New (msg : string) : error := Err msg.

(** ** strconv.FormatUint(u, 10) *)

Module strconv.

Definition digits : bytes := bytes_of_string "0123456789".

Definition digit (d : Z) : byte := nth (Z.to_nat d) digits x00.

(** [formatBits] fills a 65-byte buffer from its end, one decimal digit
    per turn of the loop; [room] is the number of free cells left. *)
Fixpoint formatBits (room : nat) (u : Z) (a : bytes) : bytes :=
  match room with
  | O => a
  | S room' =>
      if u <? 10 then digit u :: a
      else formatBits room' (u / 10) (digit (u mod 10) :: a)
  end.

Definition FormatUint (u : Z) : string :=
  string_of_bytes (formatBits 65 u []).

(** The inverse reading, used to state what [FormatUint] writes:
    [strconv.ParseUint(s, 10, 64)] restricted to digit strings. *)
Definition digit_val (b : byte) : option Z :=
  let v := byte_to_Z b - 48 in
  if (0 <=? v) && (v <=? 9) then Some v else None.

Fixpoint parseDigits (acc : Z) (s : bytes) : option Z :=
  match s with
  | [] => Some acc
  | b :: s' =>
      match digit_val b with
      | Some d => parseDigits (acc * 10 + d) s'
      | None => None
      end
  end.

Definition ParseUint (s : string) : option Z :=
  match bytes_of_string s with
  | [] => None
  | b :: s' => parseDigits 0 (b :: s')
  end.

End strconv.

(** ** base64.StdEncoding *)

Module base64.

Definition encodeStd : bytes :=
  bytes_of_string
    "ABCDEFGHIJKLMNOPQRSTUVWXYZabcdefghijklmnopqrstuvwxyz0123456789+/".

Definition StdPadding : byte := "=".

(** [enc.encode[i]] *)
Definition encode (i : Z) : byte := nth (Z.to_nat i) encodeStd x00.

(** Three source bytes joined into one 24-bit value. *)
Definition join3 (b0 b1 b2 : Z) : Z :=
  Z.lor (Z.lor (Z.shiftl b0 16) (Z.shiftl b1 8)) b2.

Definition sextet (val : Z) (sh : Z) : Z := Z.land (Z.shiftr val sh) 63.

(** [Encode]: whole 3-byte groups first, then the 1- or 2-byte
    remainder, padded with [=]. *)
Fixpoint Encode (src : bytes) : bytes :=
  match src with
  | [] => []
  | [b0] =>
      let val := Z.shiftl (byte_to_Z b0) 16 in
      [encode (sextet val 18); encode (sextet val 12);
       StdPadding; StdPadding]
  | [b0; b1] =>
      let val := Z.lor (Z.shiftl (byte_to_Z b0) 16)
                       (Z.shiftl (byte_to_Z b1) 8) in
      [encode (sextet val 18); encode (sextet val 12);
       encode (sextet val 6); StdPadding]
  | b0 :: b1 :: b2 :: rest =>
      let val := join3 (byte_to_Z b0) (byte_to_Z b1) (byte_to_Z b2) in
      encode (sextet val 18) :: encode (sextet val 12) ::
      encode (sextet val 6) :: encode (sextet val 0) :: Encode rest
  end.

Definition EncodeToString (src : bytes) : string :=
  string_of_bytes (Encode src).

(** The reading direction, used to state what [Encode] writes. *)
Fixpoint index_from (i : Z) (tbl : bytes) (c : byte) : option Z :=
  match tbl with
  | [] => None
  | t :: tbl' => if Byte.eqb t c then Some i else index_from (i + 1) tbl' c
  end.

Definition decodeChar (c : byte) : option Z := index_from 0 encodeStd c.

Definition join4 (c0 c1 c2 c3 : Z) : Z :=
  Z.lor (Z.lor (Z.lor (Z.shiftl c0 18) (Z.shiftl c1 12)) (Z.shiftl c2 6)) c3.

Definition octet (val : Z) (sh : Z) : byte :=
  byte_of_Z (Z.land (Z.shiftr val sh) 255).

Fixpoint Decode (fuel : nat) (s : bytes) : option bytes :=
  match fuel, s with
  | _, [] => Some []
  | S fuel', c0 :: c1 :: c2 :: c3 :: rest =>
      match decodeChar c0, decodeChar c1 with
      | Some v0, Some v1 =>
          if Byte.eqb c3 StdPadding then
            match rest with
            | [] =>
                if Byte.eqb c2 StdPadding then
                  Some [octet (join4 v0 v1 0 0) 16]
                else
                  match decodeChar c2 with
                  | Some v2 =>
                      let val := join4 v0 v1 v2 0 in
                      Some [octet val 16; octet val 8]
                  | None => None
                  end
            | _ => None
            end
          else
            match decodeChar c2, decodeChar c3, Decode fuel' rest with
            | Some v2, Some v3, Some tl =>
                let val := join4 v0 v1 v2 v3 in
                Some (octet val 16 :: octet val 8 :: octet val 0 :: tl)
            | _, _, _ => None
            end
      | _, _ => None
      end
  | _, _ => None
  end.

Definition DecodeString (s : string) : option bytes :=
  let b := bytes_of_string s in Decode (length b) b.

End base64.

(** ** steamlang enumerations and the protobuf messages used by web.go *)

Inductive EMsg : Type :=
| EMsg_ClientNewLoginKey
| EMsg_ClientNewLoginKeyAccepted
| EMsg_ClientRequestWebAPIAuthenticateUserNonce
| EMsg_ClientRequestWebAPIAuthenticateUserNonceResponse
| EMsg_Other (code : Z).

Inductive EUniverse : Type :=
| EUniverse_Invalid
| EUniverse_Public
| EUniverse_Beta
| EUniverse_Internal
| EUniverse_Dev.

(** Optional proto2 fields; a getter returns the zero value when the
    field is absent. *)
Record CMsgClientNewLoginKey : Type :=
  { NewLoginKey_UniqueId : option Z }.

Definition GetUniqueId (m : CMsgClientNewLoginKey) : Z :=
  default 0 (NewLoginKey_UniqueId m).

Record CMsgClientNewLoginKeyAccepted : Type :=
  { Accepted_UniqueId : option Z }.

Record CMsgClientRequestWebAPIAuthenticateUserNonceResponse : Type :=
  { WebapiAuthenticateUserNonce : option string }.

Definition GetWebapiAuthenticateUserNonce
    (m : CMsgClientRequestWebAPIAuthenticateUserNonceResponse) : string :=
  default EmptyString (WebapiAuthenticateUserNonce m).

(** [proto.Uint32] *)
Definition proto_Uint32 (v : Z) : option Z := Some v.

Inductive ProtoBody : Type :=
| Body_NewLoginKeyAccepted (m : CMsgClientNewLoginKeyAccepted)
| Body_RequestWebAPIAuthenticateUserNonce.

Record ProtoMessage : Type :=
  { msg_EMsg : EMsg; msg_Body : ProtoBody }.

Definition NewProtoMessage (e : EMsg) (b : ProtoBody) : ProtoMessage :=
  {| msg_EMsg := e; msg_Body := b |}.

Record Packet : Type :=
  { packet_EMsg : EMsg; packet_Data : bytes }.

(** ** Results, events and effects *)

Inductive result (A : Type) : Type :=
| Ok (a : A)
| Fail (e : error).
Arguments Ok {A} a.
Arguments Fail {A} e.

Inductive Event : Type :=
| WebSessionIDEvent
| WebLoggedOnEvent
| WebLogOnErrorEvent (e : error).

(** The anonymous function started by the [go] statement of [LogOn]. *)
Inductive GoFunc : Type :=
| LogOn_func1.

(** [url.Values] *)
Abbreviation Values := (gmap string (list string)).

Definition Values_Add (data : Values) (key value : string) : Values :=
  <[key := default [] (data !! key) ++ [value]]> data.

(** What a call makes happen outside of the [Web] value. *)
Inductive Effect : Type :=
| Write (m : ProtoMessage)
| Emit (ev : Event)
| Errorf (format : string) (arg : error)
| RandRead (n : nat)
| PostForm (url : string) (data : Values)
| Go (f : GoFunc).

Record rsa_PublicKey : Type :=
  { rsa_N : Z; rsa_E : Z }.

Record Response : Type :=
  { StatusCode : Z; Status : string; Body : string }.

Record AuthenticateUserResult : Type :=
  { Token : string; TokenSecure : string }.

(** The deterministic collaborators of the package: the key registry,
    the protobuf reader of [protocol.Packet] and the JSON decoder. *)
Class Collaborators (Cipher : Type) : Type :=
  { GetPublicKey : EUniverse -> rsa_PublicKey;
    ReadProtoMsg_NewLoginKey : Packet -> result CMsgClientNewLoginKey;
    ReadProtoMsg_AuthNonceResponse :
      Packet -> result CMsgClientRequestWebAPIAuthenticateUserNonceResponse;
    json_Decode : string -> result AuthenticateUserResult }.

(** What the outside answers during one run of [apiLogOn]: the entropy
    source, the two randomised encryptions, the cipher constructor and
    the HTTP round trip.  Each may fail. *)
Record Oracle (Cipher : Type) : Type :=
  { rand_source : result (nat -> byte);
    RSAEncrypt : rsa_PublicKey -> bytes -> result bytes;
    aes_NewCipher : bytes -> result Cipher;
    SymmetricEncrypt : Cipher -> bytes -> result bytes;
    http_PostForm : string -> Values -> result Response }.
Arguments rand_source {Cipher} o.
Arguments RSAEncrypt {Cipher} o pub data.
Arguments aes_NewCipher {Cipher} o key.
Arguments SymmetricEncrypt {Cipher} o ciph src.
Arguments http_PostForm {Cipher} o url data.

(** ** The Web value and the monad of its methods *)

Record Web : Type :=
  { relogOnNonce : Z;
    SessionID : string;
    SteamLogin : string;
    SteamLoginSecure : string;
    webLoginKey : string;
    client_SteamID : Z }.

Definition NewWeb (steamID : Z) : Web :=
  {| relogOnNonce := 0;
     SessionID := EmptyString;
     SteamLogin := EmptyString;
     SteamLoginSecure := EmptyString;
     webLoginKey := EmptyString;
     client_SteamID := steamID |}.

Definition set_relogOnNonce (v : Z) (w : Web) : Web :=
  {| relogOnNonce := v;
     SessionID := SessionID w;
     SteamLogin := SteamLogin w;
     SteamLoginSecure := SteamLoginSecure w;
     webLoginKey := webLoginKey w;
     client_SteamID := client_SteamID w |}.

Definition set_SessionID (v : string) (w : Web) : Web :=
  {| relogOnNonce := relogOnNonce w;
     SessionID := v;
     SteamLogin := SteamLogin w;
     SteamLoginSecure := SteamLoginSecure w;
     webLoginKey := webLoginKey w;
     client_SteamID := client_SteamID w |}.

Definition set_SteamLogin (v : string) (w : Web) : Web :=
  {| relogOnNonce := relogOnNonce w;
     SessionID := SessionID w;
     SteamLogin := v;
     SteamLoginSecure := SteamLoginSecure w;
     webLoginKey := webLoginKey w;
     client_SteamID := client_SteamID w |}.

Definition set_SteamLoginSecure (v : string) (w : Web) : Web :=
  {| relogOnNonce := relogOnNonce w;
     SessionID := SessionID w;
     SteamLogin := SteamLogin w;
     SteamLoginSecure := v;
     webLoginKey := webLoginKey w;
     client_SteamID := client_SteamID w |}.

Definition set_webLoginKey (v : string) (w : Web) : Web :=
  {| relogOnNonce := relogOnNonce w;
     SessionID := SessionID w;
     SteamLogin := SteamLogin w;
     SteamLoginSecure := SteamLoginSecure w;
     webLoginKey := v;
     client_SteamID := client_SteamID w |}.

(** A method takes the [Web] value and gives back its result, the
    updated value and the effects it caused, oldest first. *)
Definition M (A : Type) : Type := Web -> A * Web * list Effect.

Definition ret {A} (a : A) : M A := fun w => (a, w, []).

Definition bind {A B} (m : M A) (k : A -> M B) : M B :=
  fun w =>
    let '(a, w1, t1) := m w in
    let '(b, w2, t2) := k a w1 in
    (b, w2, t1 ++ t2).

Declare Scope go_scope.
Delimit Scope go_scope with go.
Notation "x <- m ;; k" := (bind m (fun x => k))
  (at level 100, m at next level, right associativity) : go_scope.
Notation "m ;; k" := (bind m (fun _ => k))
  (at level 100, right associativity) : go_scope.
Local Open Scope go_scope.

Definition get {A} (f : Web -> A) : M A := fun w => (f w, w, []).
Definition modify (f : Web -> Web) : M unit := fun w => (tt, f w, []).
Definition effect (e : Effect) : M unit := fun w => (tt, w, [e]).

Definition result_of {A} (r : A * Web * list Effect) : A := r.1.1.
Definition web_of {A} (r : A * Web * list Effect) : Web := r.1.2.
Definition effects_of {A} (r : A * Web * list Effect) : list Effect := r.2.

(** The methods of [*Client] that web.go calls. *)
Definition client_Write (m : ProtoMessage) : M unit := effect (Write m).
Definition client_Emit (ev : Event) : M unit := effect (Emit ev).
Definition client_Errorf (format : string) (arg : error) : M unit :=
  effect (Errorf format arg).

(** Modelled from the spec: [steamid.SteamID.FormatString], which is not
    among the sources; the request carries [steamid=<decimal id>]. *)
Definition FormatString (id : Z) : string := strconv.FormatUint id.

(** [sync/atomic] on the field [relogOnNonce]; each is one indivisible
    step on the [Web] value. *)
Definition atomic_StoreUint32 (v : Z) : M unit := modify (set_relogOnNonce v).

Definition atomic_CompareAndSwapUint32 (old new : Z) : M bool :=
  fun w =>
    if relogOnNonce w =? old then (true, set_relogOnNonce new w, [])
    else (false, w, []).

(** [rand.Read(b)] overwrites every cell of [b]. *)
Definition fill (src : nat -> byte) (b : bytes) : bytes :=
  map src (seq 0 (length b)).

Definition rand_Read {Cipher} (o : Oracle Cipher) (b : bytes) : M (result bytes) :=
  effect (RandRead (length b)) ;;
  ret match rand_source o with
      | Ok src => Ok (fill src b)
      | Fail e => Fail e
      end.

Definition fmt_Errorf_status (status : string) : error :=
  Err ("web: request failed with status " ++ status).

Definition AuthenticateUser_URL : string :=
  "https://api.steampowered.com/ISteamUserAuth/AuthenticateUser/v0001".

Section Methods.

Context {Cipher : Type} `{!Collaborators Cipher}.

Definition apiLogOn (o : Oracle Cipher) : M (option error) :=
  let sessionKey := repeat x00 32 in
  r <- rand_Read o sessionKey ;;
  match r with
  | Fail err => ret (Some err)
  | Ok sessionKey =>
  match RSAEncrypt o (GetPublicKey EUniverse_Public) sessionKey with
  | Fail err => ret (Some err)
  | Ok cryptedSessionKey =>
  match aes_NewCipher o sessionKey with
  | Fail err => ret (Some err)
  | Ok ciph =>
  key <- get webLoginKey ;;
  match SymmetricEncrypt o ciph (bytes_of_string key) with
  | Fail err => ret (Some err)
  | Ok cryptedLoginKey =>
  steamID <- get client_SteamID ;;
  let data := (∅ : Values) in
  let data := Values_Add data "format" "json" in
  let data := Values_Add data "steamid" (FormatString steamID) in
  let data := Values_Add data "sessionkey" (string_of_bytes cryptedSessionKey) in
  let data := Values_Add data "encrypted_loginkey" (string_of_bytes cryptedLoginKey) in
  effect (PostForm AuthenticateUser_URL data) ;;
  match http_PostForm o AuthenticateUser_URL data with
  | Fail err => ret (Some err)
  | Ok resp =>
      if StatusCode resp =? 401 then
        atomic_StoreUint32 1 ;;
        client_Write
          (NewProtoMessage EMsg_ClientRequestWebAPIAuthenticateUserNonce
             Body_RequestWebAPIAuthenticateUserNonce) ;;
        ret None
      else if negb (StatusCode resp =? 200) then
        ret (Some (fmt_Errorf_status (Status resp)))
      else
        match json_Decode (Body resp) with
        | Fail err => ret (Some err)
        | Ok res =>
            modify (set_SteamLogin (Token res)) ;;
            modify (set_SteamLoginSecure (TokenSecure res)) ;;
            client_Emit WebLoggedOnEvent ;;
            ret None
        end
  end end end end end.

(** The body of the goroutine: "retry three times". *)
Definition LogOn_go (env : nat -> Oracle Cipher) : M unit :=
  err <- apiLogOn (env 0%nat) ;;
  err <- match err with
         | Some _ =>
             err <- apiLogOn (env 1%nat) ;;
             match err with
             | Some _ => apiLogOn (env 2%nat)
             | None => ret err
             end
         | None => ret err
         end ;;
  match err with
  | Some e => client_Emit (WebLogOnErrorEvent e)
  | None => ret tt
  end.

Definition LogOn : M (option error) :=
  key <- get webLoginKey ;;
  if String.eqb key EmptyString then
    ret (Some (errors_New "steam/web: session not initialized"))
  else
    effect (Go LogOn_func1) ;;
    ret None.

Definition handleNewLoginKey (packet : Packet) : M unit :=
  match ReadProtoMsg_NewLoginKey packet with
  | Fail err => client_Errorf "web: error reading message: %v" err
  | Ok msg =>
      let acceptMsg :=
        {| Accepted_UniqueId := proto_Uint32 (GetUniqueId msg) |} in
      client_Write
        (NewProtoMessage EMsg_ClientNewLoginKeyAccepted
           (Body_NewLoginKeyAccepted acceptMsg)) ;;
      let uniqueIDStr := strconv.FormatUint (GetUniqueId msg) in
      modify
        (set_SessionID (base64.EncodeToString (bytes_of_string uniqueIDStr))) ;;
      client_Emit WebSessionIDEvent
  end.

Definition handleAuthNonceResponse (packet : Packet) : M unit :=
  match ReadProtoMsg_AuthNonceResponse packet with
  | Fail err => client_Errorf "web: error reading message: %v" err
  | Ok msg =>
      modify (set_webLoginKey (GetWebapiAuthenticateUserNonce msg)) ;;
      swapped <- atomic_CompareAndSwapUint32 1 0 ;;
      if swapped then
        err <- LogOn ;;
        match err with
        | Some err => client_Errorf "web: error logging on: %v" err
        | None => ret tt
        end
      else ret tt
  end.

Definition HandlePacket (packet : Packet) : M unit :=
  match packet_EMsg packet with
  | EMsg_ClientNewLoginKey => handleNewLoginKey packet
  | EMsg_ClientRequestWebAPIAuthenticateUserNonceResponse =>
      handleAuthNonceResponse packet
  | _ => ret tt
  end.

End Methods.

(** ** Concrete collaborators, to run the methods on examples *)

Module Demo.

(** A protobuf base-128 varint. *)
Fixpoint varint (s : bytes) : option (Z * bytes) :=
  match s with
  | [] => None
  | b :: s' =>
      let v := byte_to_Z b in
      if v <? 128 then Some (v, s')
      else match varint s' with
           | Some (hi, r) => Some (v - 128 + 128 * hi, r)
           | None => None
           end
  end.

(** Field 1, wire type 0 (tag byte 0x08): [unique_id]. *)
Definition read_NewLoginKey (p : Packet) : result CMsgClientNewLoginKey :=
  match packet_Data p with
  | [] => Ok {| NewLoginKey_UniqueId := None |}
  | x08 :: s =>
      match varint s with
      | Some (v, []) => Ok {| NewLoginKey_UniqueId := Some v |}
      | _ => Fail (Err "proto: cannot parse invalid wire-format data")
      end
  | _ => Fail (Err "proto: cannot parse invalid wire-format data")
  end.

(** Field 11, wire type 2 (tag byte 0x5a): [webapi_authenticate_user_nonce]. *)
Definition read_AuthNonceResponse (p : Packet)
  : result CMsgClientRequestWebAPIAuthenticateUserNonceResponse :=
  match packet_Data p with
  | [] => Ok {| WebapiAuthenticateUserNonce := None |}
  | x5a :: s =>
      match varint s with
      | Some (n, body) =>
          if n =? Z.of_nat (length body) then
            Ok {| WebapiAuthenticateUserNonce := Some (string_of_bytes body) |}
          else Fail (Err "proto: cannot parse invalid wire-format data")
      | None => Fail (Err "proto: cannot parse invalid wire-format data")
      end
  | _ => Fail (Err "proto: cannot parse invalid wire-format data")
  end.

(** A stand-in for the JSON decoder: the body is [token,tokensecure]. *)
Fixpoint split_comma (s : string) : option (string * string) :=
  match s with
  | EmptyString => None
  | String c s' =>
      if Ascii.eqb c ","%char then Some (EmptyString, s')
      else match split_comma s' with
           | Some (l, r) => Some (String c l, r)
           | None => None
           end
  end.

Definition decode (body : string) : result AuthenticateUserResult :=
  match split_comma body with
  | Some (t, s) => Ok {| Token := t; TokenSecure := s |}
  | None => Fail (Err "unexpected end of JSON input")
  end.

#[export] Instance collaborators : Collaborators bytes :=
  {| GetPublicKey := fun u =>
       match u with
       | EUniverse_Public => {| rsa_N := 3233; rsa_E := 17 |}
       | _ => {| rsa_N := 0; rsa_E := 0 |}
       end;
     ReadProtoMsg_NewLoginKey := read_NewLoginKey;
     ReadProtoMsg_AuthNonceResponse := read_AuthNonceResponse;
     json_Decode := decode |}.

(** An outside that answers every request with [resp]; the ciphers are
    stand-ins that keep the lengths of their inputs. *)
Definition answering (resp : result Response) : Oracle bytes :=
  {| rand_source := Ok (fun i => byte_of_Z (Z.of_nat i * 7 + 1));
     RSAEncrypt := fun pub data => Ok (rev data);
     aes_NewCipher := fun key => Ok key;
     SymmetricEncrypt := fun ciph src => Ok (rev src);
     http_PostForm := fun url data => resp |}.

Definition no_entropy : Oracle bytes :=
  {| rand_source := Fail (Err "unexpected EOF");
     RSAEncrypt := fun pub data => Ok data;
     aes_NewCipher := fun key => Ok key;
     SymmetricEncrypt := fun ciph src => Ok src;
     http_PostForm := fun url data => Fail (Err "dial tcp: i/o timeout") |}.

Definition unreachable : Oracle bytes :=
  answering (Fail (Err "dial tcp: i/o timeout")).

Definition resp401 : Response :=
  {| StatusCode := 401; Status := "401 Unauthorized"; Body := "<html>" |}.

Definition resp200 : Response :=
  {| StatusCode := 200; Status := "200 OK"; Body := "tok,toksec" |}.

Definition resp200_garbled : Response :=
  {| StatusCode := 200; Status := "200 OK"; Body := "<html>" |}.

Definition resp503 : Response :=
  {| StatusCode := 503; Status := "503 Service Unavailable"; Body := EmptyString |}.

Definition web0 : Web :=
  {| relogOnNonce := 0;
     SessionID := "MTIzNDU=";
     SteamLogin := "old";
     SteamLoginSecure := "oldsecure";
     webLoginKey := "nonce";
     client_SteamID := 76561197960265728 |}.

Definition packet_NewLoginKey_12345 : Packet :=
  {| packet_EMsg := EMsg_ClientNewLoginKey;
     packet_Data := [x08; xb9; x60] |}.

Definition packet_Nonce_fresh : Packet :=
  {| packet_EMsg := EMsg_ClientRequestWebAPIAuthenticateUserNonceResponse;
     packet_Data := x5a :: x05 :: bytes_of_string "fresh" |}.

Definition packet_Nonce_empty : Packet :=
  {| packet_EMsg := EMsg_ClientRequestWebAPIAuthenticateUserNonceResponse;
     packet_Data := [x5a; x00] |}.

End Demo.

(** ** Observations on a run *)

(** The goroutine bodies by name. *)
Definition run_GoFunc {Cipher} `{!Collaborators Cipher}
    (f : GoFunc) (env : nat -> Oracle Cipher) : M unit :=
  match f with
  | LogOn_func1 => LogOn_go env
  end.

(** The connection hands inbound packets to [HandlePacket] one by one. *)
Fixpoint deliver {Cipher} `{!Collaborators Cipher} (ps : list Packet) : M unit :=
  match ps with
  | [] => ret tt
  | p :: ps' => HandlePacket p ;; deliver ps'
  end.

Definition emitted (t : list Effect) : list Event :=
  omap (fun e => match e with Emit ev => Some ev | _ => None end) t.

Definition written (t : list Effect) : list ProtoMessage :=
  omap (fun e => match e with Write m => Some m | _ => None end) t.

Definition requests (t : list Effect) : list (string * Values) :=
  omap (fun e => match e with PostForm u d => Some (u, d) | _ => None end) t.

Definition spawned (t : list Effect) : list GoFunc :=
  omap (fun e => match e with Go f => Some f | _ => None end) t.

(** Every run of [apiLogOn] starts with one read of the entropy source,
    so the reads count the attempts. *)
Definition attempts (t : list Effect) : nat :=
  length (omap (fun e => match e with RandRead n => Some n | _ => None end) t).

Definition is_LogOnError (ev : Event) : bool :=
  match ev with
  | WebLogOnErrorEvent _ => true
  | _ => false
  end.

(** The session key an attempt draws from the entropy source [src]. *)
Definition sessionKey_of (src : nat -> byte) : bytes :=
  fill src (repeat x00 32).

Definition refresh_request : ProtoMessage :=
  NewProtoMessage EMsg_ClientRequestWebAPIAuthenticateUserNonce
    Body_RequestWebAPIAuthenticateUserNonce.

Definition ack (n : Z) : ProtoMessage :=
  NewProtoMessage EMsg_ClientNewLoginKeyAccepted
    (Body_NewLoginKeyAccepted {| Accepted_UniqueId := Some n |}).

Definition not_initialized : error :=
  errors_New "steam/web: session not initialized".

(** One of the four steps before the request fails with [e]. *)
Inductive CryptoFailure {Cipher} `{!Collaborators Cipher}
    (o : Oracle Cipher) (w : Web) (e : error) : Prop :=
| fail_rand :
    rand_source o = Fail e -> CryptoFailure o w e
| fail_rsa src :
    rand_source o = Ok src ->
    RSAEncrypt o (GetPublicKey EUniverse_Public) (sessionKey_of src) = Fail e ->
    CryptoFailure o w e
| fail_cipher src ck :
    rand_source o = Ok src ->
    RSAEncrypt o (GetPublicKey EUniverse_Public) (sessionKey_of src) = Ok ck ->
    aes_NewCipher o (sessionKey_of src) = Fail e ->
    CryptoFailure o w e
| fail_symmetric src ck ciph :
    rand_source o = Ok src ->
    RSAEncrypt o (GetPublicKey EUniverse_Public) (sessionKey_of src) = Ok ck ->
    aes_NewCipher o (sessionKey_of src) = Ok ciph ->
    SymmetricEncrypt o ciph (bytes_of_string (webLoginKey w)) = Fail e ->
    CryptoFailure o w e.

(** The request form built from the outcome of the four steps. *)
Inductive Payload {Cipher} `{!Collaborators Cipher}
    (o : Oracle Cipher) (w : Web) : Values -> Prop :=
| payload src ck ciph cl :
    rand_source o = Ok src ->
    RSAEncrypt o (GetPublicKey EUniverse_Public) (sessionKey_of src) = Ok ck ->
    aes_NewCipher o (sessionKey_of src) = Ok ciph ->
    SymmetricEncrypt o ciph (bytes_of_string (webLoginKey w)) = Ok cl ->
    Payload o w
      (Values_Add
         (Values_Add
            (Values_Add (Values_Add ∅ "format" "json")
               "steamid" (FormatString (client_SteamID w)))
            "sessionkey" (string_of_bytes ck))
         "encrypted_loginkey" (string_of_bytes cl)).

(** The shape of every run of [apiLogOn]: either it stops before the
    request, or it sends one request and acts on the answer. *)
Inductive Outcome {Cipher} `{!Collaborators Cipher}
    (o : Oracle Cipher) (w : Web) : option error * Web * list Effect -> Prop :=
| out_crypto e :
    CryptoFailure o w e ->
    Outcome o w (Some e, w, [RandRead 32])
| out_transport data e :
    Payload o w data ->
    http_PostForm o AuthenticateUser_URL data = Fail e ->
    Outcome o w (Some e, w, [RandRead 32; PostForm AuthenticateUser_URL data])
| out_stale data resp :
    Payload o w data ->
    http_PostForm o AuthenticateUser_URL data = Ok resp ->
    StatusCode resp = 401 ->
    Outcome o w
      (None, set_relogOnNonce 1 w,
       [RandRead 32; PostForm AuthenticateUser_URL data; Write refresh_request])
| out_status data resp :
    Payload o w data ->
    http_PostForm o AuthenticateUser_URL data = Ok resp ->
    StatusCode resp <> 401 -> StatusCode resp <> 200 ->
    Outcome o w
      (Some (fmt_Errorf_status (Status resp)), w,
       [RandRead 32; PostForm AuthenticateUser_URL data])
| out_undecodable data resp e :
    Payload o w data ->
    http_PostForm o AuthenticateUser_URL data = Ok resp ->
    StatusCode resp = 200 ->
    json_Decode (Body resp) = Fail e ->
    Outcome o w (Some e, w, [RandRead 32; PostForm AuthenticateUser_URL data])
| out_success data resp res :
    Payload o w data ->
    http_PostForm o AuthenticateUser_URL data = Ok resp ->
    StatusCode resp = 200 ->
    json_Decode (Body resp) = Ok res ->
    Outcome o w
      (None, set_SteamLoginSecure (TokenSecure res) (set_SteamLogin (Token res) w),
       [RandRead 32; PostForm AuthenticateUser_URL data; Emit WebLoggedOnEvent]).

(** The three runs of [apiLogOn] the goroutine may make, each starting
    from the [Web] value the previous one left. *)
Definition attempt1 {Cipher} `{!Collaborators Cipher}
    (env : nat -> Oracle Cipher) (w : Web) : option error * Web * list Effect :=
  apiLogOn (env 0%nat) w.

Definition attempt2 {Cipher} `{!Collaborators Cipher}
    (env : nat -> Oracle Cipher) (w : Web) : option error * Web * list Effect :=
  apiLogOn (env 1%nat) (web_of (attempt1 env w)).

Definition attempt3 {Cipher} `{!Collaborators Cipher}
    (env : nat -> Oracle Cipher) (w : Web) : option error * Web * list Effect :=
  apiLogOn (env 2%nat) (web_of (attempt2 env w)).

Definition logOnErrors (t : list Effect) : list Event :=
  filter (fun ev => is_LogOnError ev = true) (emitted t).

(** What [handleAuthNonceResponse] logs for the result of [LogOn]. *)
Definition report (err : option error) : list Effect :=
  match err with
  | Some e => [Errorf "web: error logging on: %v" e]
  | None => []
  end.

(** The HTTP call of the attempt returned the response [resp]. *)
Definition answered {Cipher} `{!Collaborators Cipher}
    (o : Oracle Cipher) (w : Web) (resp : Response) : Prop :=
  exists url data,
    In (url, data) (requests (effects_of (apiLogOn o w)))
    /\ http_PostForm o url data = Ok resp.

(** What can happen to a [Web] value between two observations: a packet
    is handled, [LogOn] is called, or a goroutine makes one attempt.  The
    attempts of concurrent goroutines and the handlers interleave at this
    grain. *)
Inductive Step {Cipher} `{!Collaborators Cipher} : Web -> Web -> Prop :=
| step_packet p w : Step w (web_of (HandlePacket p w))
| step_LogOn w : Step w (web_of (LogOn w))
| step_attempt (o : Oracle Cipher) w : Step w (web_of (apiLogOn o w)).

(** * The other packages of the repository *)

(** A call either returns or panics. *)
Inductive outcome (A : Type) : Type :=
| Returns (a : A)
| Panics (msg : string).
Arguments Returns {A} a.
Arguments Panics {A} msg.

Definition nil_dereference : string :=
  "runtime error: invalid memory address or nil pointer dereference".

(** ** Package inventory (economy/inventory) *)

Module inventory.

(** A Go map value: [None] is the nil map, which can be read and ranged
    over but not assigned to. *)
Definition gomap (V : Type) : Type := option (gmap string V).

Definition entries {V} (m : gomap V) : list (string * V) :=
  match m with
  | None => []
  | Some t => map_to_list t
  end.

(** [m[key] = value] *)
Definition assign {V} (m : gomap V) (key : string) (value : V)
  : outcome (gomap V) :=
  match m with
  | None => Panics "assignment to entry in nil map"
  | Some t => Returns (Some (<[key := value]> t))
  end.

(** [for key, value := range src { dst[key] = value }], the entries of
    [src] being visited in the order [visit]. *)
Fixpoint range_assign {V} (visit : list (string * V)) (dst : gomap V)
  : outcome (gomap V) :=
  match visit with
  | [] => Returns dst
  | (key, value) :: visit' =>
      match assign dst key value with
      | Returns dst' => range_assign visit' dst'
      | Panics msg => Panics msg
      end
  end.

Definition copy_entries {V} (src dst : gomap V) : outcome (gomap V) :=
  range_assign (entries src) dst.

(** The table a map value holds; the nil map holds none. *)
Definition table {V} (m : gomap V) : gmap string V := default ∅ m.

(** The fields of [Inventory] that this file reads and writes; the types
    of the map values are declared elsewhere and are parameters here. *)
Record Inventory (Item Description Currency : Type) : Type :=
  { Items : gomap Item;
    Descriptions : gomap Description;
    Currencies : gomap Currency }.
Arguments Items {Item Description Currency} i.
Arguments Descriptions {Item Description Currency} i.
Arguments Currencies {Item Description Currency} i.

Record PartialInventory (Item Description Currency : Type) : Type :=
  { Inventory_ : Inventory Item Description Currency;
    Success : bool;
    Error : string;
    More : bool;
    MoreStart : Z }.
Arguments Inventory_ {Item Description Currency} p.
Arguments Success {Item Description Currency} p.
Arguments Error {Item Description Currency} p.
Arguments More {Item Description Currency} p.
Arguments MoreStart {Item Description Currency} p.

Section Merge.

Context {Item Description Currency : Type}.
#[local] Abbreviation Inv := (Inventory Item Description Currency).
#[local] Abbreviation Page := (PartialInventory Item Description Currency).

(** The body of the loop of [Merge] for one element [i] with [idx > 0]. *)
Definition merge_one (inv i : Inv) : outcome Inv :=
  match copy_entries (Items i) (Items inv) with
  | Panics msg => Panics msg
  | Returns items =>
      match copy_entries (Descriptions i) (Descriptions inv) with
      | Panics msg => Panics msg
      | Returns descriptions =>
          match copy_entries (Currencies i) (Currencies inv) with
          | Panics msg => Panics msg
          | Returns currencies =>
              Returns {| Items := items;
                         Descriptions := descriptions;
                         Currencies := currencies |}
          end
      end
  end.

(** [for idx, i := range p], from index [idx] on. *)
Fixpoint merge_loop (idx : nat) (inv : Inv) (p : list Inv) : outcome Inv :=
  match p with
  | [] => Returns inv
  | i :: p' =>
      if Nat.eqb idx 0 then merge_loop (S idx) inv p'
      else
        match merge_one inv i with
        | Returns inv' => merge_loop (S idx) inv' p'
        | Panics msg => Panics msg
        end
  end.

(** [Merge] updates its first argument in place and returns it; the
    value returned here is that first argument after the call. *)
Definition Merge (p : list Inv) : outcome Inv :=
  match p with
  | [] => Panics "runtime error: index out of range [0] with length 0"
  | inv :: _ => merge_loop 0 inv p
  end.

Definition api_call_failed (msg : string) : error :=
  errors_New ("GetFullInventory API call failed: " ++ msg).

Section GetFullInventory.

(** The two callbacks: what the first call answers, and what a call for
    the page starting at [start] answers.  A call returns a pointer,
    which may be nil, and an error. *)
Variable getFirst : result (option Page).
Variable getNext : Z -> result (option Page).

(** The [for] statement of [GetFullInventory], entered with [latest].
    [next] is the variable declared before the loop; the body declares a
    [next] of its own with [:=], so the outer one is what the post
    statement [latest = next] reads, and it is never assigned.  The
    second component lists the arguments [getNext] was called with.
    [None] means the bound on the number of turns was reached. *)
Fixpoint pages (turns : nat) (next latest : option Page) (res : Inv)
  : option (outcome (result Inv) * list Z) :=
  match turns with
  | O => None
  | S turns' =>
      match latest with
      | None => Some (Panics nil_dereference, [])
      | Some l =>
          if More l then
            match getNext (MoreStart l) with
            | Fail err => Some (Returns (Fail err), [MoreStart l])
            | Ok None => Some (Panics nil_dereference, [MoreStart l])
            | Ok (Some next') =>
                if negb (Success next') then
                  Some (Returns (Fail (api_call_failed (Error next'))),
                        [MoreStart l])
                else
                  match Merge [res; Inventory_ next'] with
                  | Panics msg => Some (Panics msg, [MoreStart l])
                  | Returns res' =>
                      match pages turns' next next res' with
                      | Some (out, calls) => Some (out, MoreStart l :: calls)
                      | None => None
                      end
                  end
            end
          else Some (Returns (Ok res), [])
      end
  end.

Definition GetFullInventory (turns : nat)
  : option (outcome (result Inv) * list Z) :=
  match getFirst with
  | Fail err => Some (Returns (Fail err), [])
  | Ok None => Some (Panics nil_dereference, [])
  | Ok (Some first) =>
      if negb (Success first) then
        Some (Returns (Fail (api_call_failed (Error first))), [])
      else pages turns None (Some first) (Inventory_ first)
  end.

End GetFullInventory.

End Merge.

(** [InventoryApps.Get] and [Contexts.Get]: the maps are keyed by the
    decimal text of the id. *)
Definition InventoryApps_Get {V} (i : gmap string V) (appID : Z) : result V :=
  match i !! strconv.FormatUint appID with
  | Some inventoryApp => Ok inventoryApp
  | None => Fail (Err "inventory app not found")
  end.

Definition Contexts_Get {V} (c : gmap string V) (contextID : Z) : result V :=
  match c !! strconv.FormatUint contextID with
  | Some context => Ok context
  | None => Fail (Err "context not found")
  end.

(** Concrete pages, to run the functions on examples. *)
Definition inv_a : Inventory string string string :=
  {| Items := Some {[ "1" := "sword"; "2" := "shield" ]}%string;
     Descriptions := Some {[ "d1" := "a sword" ]}%string;
     Currencies := Some ∅ |}.

Definition inv_b : Inventory string string string :=
  {| Items := Some {[ "2" := "bow"; "3" := "arrow" ]}%string;
     Descriptions := None;
     Currencies := Some {[ "c" := "gems" ]}%string |}.

Definition inv_nil : Inventory string string string :=
  {| Items := None; Descriptions := None; Currencies := None |}.

Definition page_a (more : bool) : PartialInventory string string string :=
  {| Inventory_ := inv_a; Success := true; Error := EmptyString;
     More := more; MoreStart := 2 |}.

Definition page_b : PartialInventory string string string :=
  {| Inventory_ := inv_b; Success := true; Error := EmptyString;
     More := false; MoreStart := 0 |}.

Definition page_failed : PartialInventory string string string :=
  {| Inventory_ := inv_nil; Success := false; Error := "private";
     More := false; MoreStart := 0 |}.

End inventory.

(** ** The game coordinator (package steam) *)

Module gc.

Inductive EMsg : Type :=
| EMsg_ClientFromGC
| EMsg_ClientToGC
| EMsg_ClientGamesPlayed
| EMsg_Other (code : Z).

Definition is_ClientFromGC (e : EMsg) : bool :=
  match e with
  | EMsg_ClientFromGC => true
  | _ => false
  end.

Record Packet : Type :=
  { packet_EMsg : EMsg; packet_Data : bytes }.

Record CMsgGCClient : Type :=
  { Appid : option Z; Msgtype : option Z; Payload : bytes }.

Record GamePlayed : Type :=
  { GameId : option Z }.

Inductive Body : Type :=
| Body_GCClient (m : CMsgGCClient)
| Body_GamesPlayed (GamesPlayed : list GamePlayed).

Record ClientMsg : Type :=
  { msg_EMsg : EMsg; msg_Body : Body }.

Definition NewClientMsgProtobuf (e : EMsg) (b : Body) : ClientMsg :=
  {| msg_EMsg := e; msg_Body := b |}.

(** What the methods of [gc.IGCMsg] answer for one message. *)
Record IGCMsg : Type :=
  { Serialize : bytes; GetMsgType : Z; IsProto : bool; GetAppId : Z }.

Definition protoMask : Z := 0x80000000.

Section GameCoordinator.

(** The registered handlers and the decoded packets are opaque here, and
    so are the reader of the packet body, whose error [HandlePacket]
    drops, and the constructor of [gc.GCPacket]. *)
Context {Handler GCPacket : Type}.
Variable ReadProtoMsg : Packet -> CMsgGCClient.
Variable NewGCPacket : CMsgGCClient -> result GCPacket.

Inductive Effect : Type :=
| Write (m : ClientMsg)
| Errorf (format : string) (arg : error)
| HandleGCPacket (h : Handler) (p : GCPacket).

Record GameCoordinator : Type :=
  { handlers : list Handler }.

Definition newGC : GameCoordinator := {| handlers := [] |}.

Definition RegisterPacketHandler (g : GameCoordinator) (handler : Handler)
  : GameCoordinator :=
  {| handlers := handlers g ++ [handler] |}.

(** [for _, handler := range g.handlers { handler.HandleGCPacket(p) }] *)
Fixpoint dispatch (hs : list Handler) (p : GCPacket) : list Effect :=
  match hs with
  | [] => []
  | handler :: hs' => HandleGCPacket handler p :: dispatch hs' p
  end.

Definition HandlePacket (g : GameCoordinator) (packet : Packet) : list Effect :=
  if negb (is_ClientFromGC (packet_EMsg packet)) then []
  else
    let msg := ReadProtoMsg packet in
    match NewGCPacket msg with
    | Fail err => [Errorf "Error reading GC message: %v" err]
    | Ok p => dispatch (handlers g) p
    end.

Definition GC_Write (msg : IGCMsg) : list Effect :=
  let buf := Serialize msg in
  let msgType := GetMsgType msg in
  let msgType := if IsProto msg then Z.lor msgType protoMask else msgType in
  [Write
     (NewClientMsgProtobuf EMsg_ClientToGC
        (Body_GCClient
           {| Msgtype := Some msgType;
              Appid := Some (GetAppId msg);
              Payload := buf |}))].

(** [games = append(games, ...)] for every id, from the empty slice. *)
Fixpoint games_from (games : list GamePlayed) (appIds : list Z)
  : list GamePlayed :=
  match appIds with
  | [] => games
  | appId :: appIds' =>
      games_from (games ++ [{| GameId := Some appId |}]) appIds'
  end.

Definition SetGamesPlayed (appIds : list Z) : list Effect :=
  let games := games_from [] appIds in
  [Write (NewClientMsgProtobuf EMsg_ClientGamesPlayed (Body_GamesPlayed games))].

(** The games a written message announces. *)
Definition announced (e : Effect) : list Z :=
  match e with
  | Write {| msg_Body := Body_GamesPlayed games |} =>
      omap GameId games
  | _ => []
  end.

Definition register_all (g : GameCoordinator) (hs : list Handler)
  : GameCoordinator :=
  foldl RegisterPacketHandler g hs.

End GameCoordinator.

End gc.

(** Concrete collaborators of the game coordinator, to run it on
    examples: handlers are numbered and a decoded packet is its payload. *)
Module DemoGC.

Definition read (packet : gc.Packet) : gc.CMsgGCClient :=
  {| gc.Appid := Some 570;
     gc.Msgtype := Some 4004;
     gc.Payload := gc.packet_Data packet |}.

Definition decode (m : gc.CMsgGCClient) : result bytes :=
  match gc.Payload m with
  | [] => Fail (Err "unexpected EOF")
  | _ => Ok (gc.Payload m)
  end.

Definition hello : gc.Packet :=
  {| gc.packet_EMsg := gc.EMsg_ClientFromGC; gc.packet_Data := [x01; x02] |}.

Definition proto_msg : gc.IGCMsg :=
  {| gc.Serialize := [x0a; x00];
     gc.GetMsgType := 4006;
     gc.IsProto := true;
     gc.GetAppId := 570 |}.

End DemoGC.

(** ** Further observations on the methods of [Web] *)

(** The fields of the request form. *)
Definition form_fields : list string :=
  ["format"; "steamid"; "sessionkey"; "encrypted_loginkey"]%string.

(** The signals by which a caller learns how a log-on went: the events
    and the request for a fresh nonce. *)
Definition signals (t : list Effect) : nat :=
  length (emitted t) + length (written t).

(** * Properties *)

Ltac run_method :=
  cbv [bind ret effect get modify rand_Read client_Write client_Emit
       client_Errorf atomic_StoreUint32 atomic_CompareAndSwapUint32
       result_of web_of effects_of]; cbn [fst snd app].

Section Attempt.

Context {Cipher : Type} `{!Collaborators Cipher}.
Implicit Types (o : Oracle Cipher) (w : Web).

Lemma apiLogOn_outcome o w : Outcome o w (apiLogOn o w).
Proof.
  unfold apiLogOn. run_method.
  destruct (rand_source o) as [src|e] eqn:Hsrc; cbn [fst snd app].
  2: { apply out_crypto. now apply fail_rand. }
  fold (sessionKey_of src).
  destruct (RSAEncrypt o _ _) as [ck|e] eqn:Hrsa; cbn [fst snd app].
  2: { apply out_crypto. now apply fail_rsa with src. }
  destruct (aes_NewCipher o _) as [ciph|e] eqn:Hciph; cbn [fst snd app].
  2: { apply out_crypto. now apply fail_cipher with src ck. }
  destruct (SymmetricEncrypt o _ _) as [cl|e] eqn:Hsym; cbn [fst snd app].
  2: { apply out_crypto. now apply fail_symmetric with src ck ciph. }
  assert (Hpay : Payload o w
    (Values_Add
       (Values_Add
          (Values_Add (Values_Add ∅ "format" "json")
             "steamid" (FormatString (client_SteamID w)))
          "sessionkey" (string_of_bytes ck))
       "encrypted_loginkey" (string_of_bytes cl)))
    by now apply payload with src ciph.
  destruct (http_PostForm o _ _) as [resp|e] eqn:Hpost; cbn [fst snd app].
  2: { now apply out_transport. }
  destruct (StatusCode resp =? 401) eqn:H401; cbn [fst snd app negb].
  { apply out_stale with resp; [assumption | assumption | lia]. }
  destruct (StatusCode resp =? 200) eqn:H200; cbn [fst snd app negb].
  2: { apply out_status; [assumption | assumption | lia | lia]. }
  destruct (json_Decode _) as [res|e] eqn:Hdec; cbn [fst snd app].
  - apply out_success with resp; [assumption | assumption | lia | assumption].
  - apply out_undecodable with resp; [assumption | assumption | lia | assumption].
Qed.

End Attempt.

(** Replace a run of [apiLogOn] by the case of [Outcome] it falls in. *)
Ltac by_outcome o w :=
  generalize (apiLogOn_outcome o w);
  generalize (apiLogOn o w);
  let r := fresh "r" in
  let Hr := fresh "Hr" in
  intros r Hr; destruct Hr.

Section Exchange.

Context {Cipher : Type} `{!Collaborators Cipher}.
Implicit Types (o : Oracle Cipher) (w : Web).

(** The errors of the four steps exclude the handshake having produced
    a request form. *)
Lemma CryptoFailure_no_Payload o w e data :
  CryptoFailure o w e -> Payload o w data -> False.
Proof.
  intros Hf Hp. destruct Hp as [src ck ciph cl H1 H2 H3 H4].
  destruct Hf as [F1 | s F1 F2 | s k F1 F2 F3 | s k c F1 F2 F3 F4];
    repeat match goal with
           | A : ?x = Ok _, B : ?x = Ok _ |- _ =>
               rewrite A in B; injection B as <-
           | A : ?x = Ok _, B : ?x = Fail _ |- _ =>
               rewrite A in B; discriminate B
           end.
Qed.

(** C1. An attempt whose request is answered with status 401, whatever
    the body, sets [relogOnNonce] to 1, writes exactly one message, the
    request for a fresh nonce, returns nil, changes no other field of
    the [Web] value (so neither credential), and emits no event. *)
Theorem apiLogOn_status_401 o w resp :
  answered o w resp ->
  StatusCode resp = 401 ->
  result_of (apiLogOn o w) = None
  /\ relogOnNonce (web_of (apiLogOn o w)) = 1
  /\ written (effects_of (apiLogOn o w)) = [refresh_request]
  /\ emitted (effects_of (apiLogOn o w)) = []
  /\ SteamLogin (web_of (apiLogOn o w)) = SteamLogin w
  /\ SteamLoginSecure (web_of (apiLogOn o w)) = SteamLoginSecure w
  /\ web_of (apiLogOn o w) = set_relogOnNonce 1 w.
Proof.
  unfold answered.
  by_outcome o w; cbn; intros (url & dat & Hin & Hpost) H401;
    try (destruct Hin as [[= <- <-] | []]); try (destruct Hin);
    try congruence;
    try (rewrite Hpost in *; congruence).
  repeat split; reflexivity.
Qed.

(** The same attempt seen from the goroutine: it returns nil. *)
Lemma apiLogOn_stale_returns_nil o w resp :
  answered o w resp ->
  StatusCode resp = 401 ->
  result_of (apiLogOn o w) = None.
Proof.
  unfold answered.
  by_outcome o w; cbn; intros (url & dat & Hin & Hpost) H401;
    try (destruct Hin as [[= <- <-] | []]); try (destruct Hin);
    try congruence;
    try (rewrite Hpost in *; congruence).
Qed.

(** C5. An attempt whose request is answered with status 200 and a
    body that decodes stores the two decoded strings as [SteamLogin]
    and [SteamLoginSecure], whatever these held before, touches no
    other field, emits exactly one [WebLoggedOnEvent] and returns nil. *)
Theorem apiLogOn_status_200 o w resp res :
  answered o w resp ->
  StatusCode resp = 200 ->
  json_Decode (Body resp) = Ok res ->
  result_of (apiLogOn o w) = None
  /\ SteamLogin (web_of (apiLogOn o w)) = Token res
  /\ SteamLoginSecure (web_of (apiLogOn o w)) = TokenSecure res
  /\ emitted (effects_of (apiLogOn o w)) = [WebLoggedOnEvent]
  /\ written (effects_of (apiLogOn o w)) = []
  /\ web_of (apiLogOn o w) =
       set_SteamLoginSecure (TokenSecure res) (set_SteamLogin (Token res) w).
Proof.
  unfold answered.
  by_outcome o w; cbn; intros (url & dat & Hin & Hpost) H200 Hdec;
    try (destruct Hin as [[= <- <-] | []]); try (destruct Hin);
    try congruence;
    try (rewrite Hpost in *; congruence).
  assert (resp0 = resp) as -> by congruence.
  assert (res0 = res) as -> by congruence.
  repeat split; reflexivity.
Qed.

(** C9. An attempt whose request is answered with a status other than
    200 and 401, or with status 200 and a body that does not decode,
    returns an error (naming the status line, respectively the
    decoder's own), leaves the [Web] value as it was, and emits and
    writes nothing. *)
Theorem apiLogOn_protocol_error o w resp :
  answered o w resp ->
  (StatusCode resp <> 200 /\ StatusCode resp <> 401)
  \/ (StatusCode resp = 200 /\ exists e, json_Decode (Body resp) = Fail e) ->
  (exists e,
      result_of (apiLogOn o w) = Some e
      /\ (StatusCode resp <> 200 -> e = fmt_Errorf_status (Status resp))
      /\ (StatusCode resp = 200 -> json_Decode (Body resp) = Fail e))
  /\ web_of (apiLogOn o w) = w
  /\ emitted (effects_of (apiLogOn o w)) = []
  /\ written (effects_of (apiLogOn o w)) = [].
Proof.
  unfold answered.
  by_outcome o w; cbn; intros (url & dat & Hin & Hpost) Hcase;
    try (destruct Hin as [[= <- <-] | []]); try (destruct Hin);
    try (rewrite Hpost in *; try discriminate);
    repeat match goal with
           | A : Ok _ = Ok _ |- _ => injection A as ->
           end.
  - destruct Hcase as [[? ?] | [? _]]; congruence.
  - split; [| repeat split]. eexists. repeat split; congruence.
  - split; [| repeat split]. eexists.
    repeat split; first [congruence | intros; assumption].
  - destruct Hcase as [[? ?] | [_ [e He]]]; congruence.
Qed.

Lemma CryptoFailure_functional o w e e' :
  CryptoFailure o w e -> CryptoFailure o w e' -> e = e'.
Proof.
  intros Hf Hf'.
  destruct Hf as [F1 | s F1 F2 | s k F1 F2 F3 | s k c F1 F2 F3 F4];
  destruct Hf' as [G1 | t G1 G2 | t l G1 G2 G3 | t l d G1 G2 G3 G4];
    repeat match goal with
           | A : ?x = Ok _, B : ?x = Ok _ |- _ =>
               rewrite A in B; injection B as <-
           | A : ?x = Ok _, B : ?x = Fail _ |- _ =>
               rewrite A in B; discriminate B
           | A : ?x = Fail _, B : ?x = Fail _ |- _ =>
               rewrite A in B; injection B as <-
           end; reflexivity.
Qed.

(** An HTTP transport failure is returned as the attempt's error and
    leaves the [Web] value as it was. *)
Lemma apiLogOn_transport_failure o w url data e :
  In (url, data) (requests (effects_of (apiLogOn o w))) ->
  http_PostForm o url data = Fail e ->
  result_of (apiLogOn o w) = Some e /\ web_of (apiLogOn o w) = w.
Proof.
  by_outcome o w; cbn; intros Hin Hpost;
    try (destruct Hin as [[= <- <-] | []]); try (destruct Hin);
    try (rewrite Hpost in *; try discriminate).
  split; congruence.
Qed.

(** C8. When the entropy read, the RSA encryption, the cipher
    construction or the symmetric encryption fails with [e], the
    attempt returns [e] as its error, as it does for a failed HTTP
    call, and it does so before the request: nothing is posted,
    written or emitted, and the [Web] value is as it was. *)
Theorem apiLogOn_crypto_failure o w e :
  CryptoFailure o w e ->
  result_of (apiLogOn o w) = Some e
  /\ web_of (apiLogOn o w) = w
  /\ requests (effects_of (apiLogOn o w)) = []
  /\ written (effects_of (apiLogOn o w)) = []
  /\ emitted (effects_of (apiLogOn o w)) = []
  /\ effects_of (apiLogOn o w) = [RandRead 32].
Proof.
  by_outcome o w; cbn; intros Hf;
    try (exfalso; eapply CryptoFailure_no_Payload; eassumption).
  assert (e0 = e) as -> by (eapply CryptoFailure_functional; eassumption).
  repeat split; reflexivity.
Qed.

Lemma sessionKey_of_length src : length (sessionKey_of src) = 32%nat.
Proof. reflexivity. Qed.

Lemma sessionKey_of_bytes src : sessionKey_of src = map src (seq 0 32).
Proof. reflexivity. Qed.

(** Two reads give the same key only when they agree on all 32 bytes. *)
Lemma sessionKey_of_fresh (src src' : nat -> byte) :
  sessionKey_of src' = sessionKey_of src
  <-> forall i, (i < 32)%nat -> src' i = src i.
Proof.
  rewrite !sessionKey_of_bytes. split.
  - intros H i Hi.
    apply (proj1 List.map_ext_in_iff H). apply in_seq. lia.
  - intros H. apply List.map_ext_in. intros i Hi. apply H.
    apply in_seq in Hi. lia.
Qed.

Lemma Payload_functional o w data data' :
  Payload o w data -> Payload o w data' -> data = data'.
Proof.
  intros [src ck ciph cl H1 H2 H3 H4] [src' ck' ciph' cl' G1 G2 G3 G4].
  rewrite H1 in G1. injection G1 as <-.
  rewrite H2 in G2. injection G2 as <-.
  rewrite H3 in G3. injection G3 as <-.
  rewrite H4 in G4. injection G4 as <-.
  reflexivity.
Qed.

(** When the four steps succeed, the attempt posts the form they give,
    once, to the fixed address. *)
Lemma apiLogOn_request_sent o w data :
  Payload o w data ->
  requests (effects_of (apiLogOn o w)) = [(AuthenticateUser_URL, data)].
Proof.
  by_outcome o w; cbn; intros Hpay;
    try (exfalso; eapply CryptoFailure_no_Payload; eassumption);
    f_equal; f_equal; eapply Payload_functional; eassumption.
Qed.

(** C7. Every attempt starts with its own read of 32 bytes from the
    entropy source, and reads it once.  The request it sends carries as
    [sessionkey] the RSA encryption, under the key registered for
    [EUniverse_Public], of exactly those 32 bytes, and as
    [encrypted_loginkey] the encryption of the bytes of [webLoginKey]
    under the cipher built from the same 32 bytes.  The key is the one
    read in this attempt: another read gives the same key only if it
    returns the same 32 bytes. *)
Theorem apiLogOn_handshake o w url data :
  In (url, data) (requests (effects_of (apiLogOn o w))) ->
  (exists rest,
      effects_of (apiLogOn o w) = RandRead 32 :: rest /\ attempts rest = 0%nat)
  /\ url = AuthenticateUser_URL
  /\ exists src ck ciph cl,
      rand_source o = Ok src
      /\ length (sessionKey_of src) = 32%nat
      /\ sessionKey_of src = map src (seq 0 32)
      /\ (forall src',
             sessionKey_of src' = sessionKey_of src
             <-> forall i, (i < 32)%nat -> src' i = src i)
      /\ RSAEncrypt o (GetPublicKey EUniverse_Public) (sessionKey_of src) = Ok ck
      /\ aes_NewCipher o (sessionKey_of src) = Ok ciph
      /\ SymmetricEncrypt o ciph (bytes_of_string (webLoginKey w)) = Ok cl
      /\ data !! "sessionkey"%string = Some [string_of_bytes ck]
      /\ data !! "encrypted_loginkey"%string = Some [string_of_bytes cl]
      /\ data !! "steamid"%string = Some [FormatString (client_SteamID w)]
      /\ data !! "format"%string = Some ["json"%string].
Proof.
  by_outcome o w; intros Hin; cbn in Hin;
    try (destruct Hin as [[= <- <-] | []]); try (destruct Hin).
  all: split; [eexists; split; reflexivity |].
  all: split; [reflexivity |].
  all: match goal with
       | P : Payload _ _ _ |- _ => destruct P as [src ck ciph cl ? ? ? ?]
       end.
  all: exists src, ck, ciph, cl.
  all: split; [assumption |].
  all: split; [reflexivity |].
  all: split; [reflexivity |].
  all: split; [intros src'; apply sessionKey_of_fresh |].
  all: repeat split; first [assumption | reflexivity].
Qed.

End Exchange.

(** C4. With an empty [webLoginKey], [LogOn] returns the error "session
    not initialized" at once: it has no effect at all (no request, no
    goroutine, no event, no message) and the [Web] value is as it was. *)
Theorem LogOn_not_initialized (w : Web) :
  webLoginKey w = EmptyString ->
  result_of (LogOn w) = Some not_initialized
  /\ web_of (LogOn w) = w
  /\ effects_of (LogOn w) = []
  /\ requests (effects_of (LogOn w)) = []
  /\ spawned (effects_of (LogOn w)) = [].
Proof.
  intros Hkey. unfold LogOn. run_method. rewrite Hkey. cbn.
  repeat split; reflexivity.
Qed.

Section Handlers.

Context {Cipher : Type} `{!Collaborators Cipher}.
Implicit Types (o : Oracle Cipher) (w : Web) (env : nat -> Oracle Cipher).

Lemma LogOn_web w : web_of (LogOn w) = w.
Proof.
  unfold LogOn. run_method.
  destruct (String.eqb (webLoginKey w) EmptyString); reflexivity.
Qed.

Lemma LogOn_initialized w :
  webLoginKey w <> EmptyString -> LogOn w = (None, w, [Go LogOn_func1]).
Proof.
  intros Hkey. unfold LogOn. run_method.
  destruct (String.eqb_spec (webLoginKey w) EmptyString) as [E | _];
    [contradiction | reflexivity].
Qed.

Lemma LogOn_empty w :
  webLoginKey w = EmptyString -> LogOn w = (Some not_initialized, w, []).
Proof.
  intros Hkey. unfold LogOn. run_method. rewrite Hkey. reflexivity.
Qed.

(** The handler as one overwrite, one compare-and-swap and, when the
    swap took place, one call of [LogOn]. *)
Lemma handleAuthNonceResponse_armed p msg w :
  ReadProtoMsg_AuthNonceResponse p = Ok msg ->
  relogOnNonce w = 1 ->
  handleAuthNonceResponse p w =
    (tt,
     set_relogOnNonce 0 (set_webLoginKey (GetWebapiAuthenticateUserNonce msg) w),
     effects_of
       (LogOn (set_relogOnNonce 0
                 (set_webLoginKey (GetWebapiAuthenticateUserNonce msg) w)))
     ++ report
          (result_of
             (LogOn (set_relogOnNonce 0
                       (set_webLoginKey (GetWebapiAuthenticateUserNonce msg) w))))).
Proof.
  intros Hread Hflag. unfold handleAuthNonceResponse, LogOn. rewrite Hread.
  run_method. cbn [relogOnNonce set_webLoginKey]. rewrite Hflag.
  cbn [Z.eqb Pos.eqb webLoginKey set_relogOnNonce set_webLoginKey].
  destruct (String.eqb (GetWebapiAuthenticateUserNonce msg) EmptyString);
    reflexivity.
Qed.

Lemma handleAuthNonceResponse_idle p msg w :
  ReadProtoMsg_AuthNonceResponse p = Ok msg ->
  relogOnNonce w <> 1 ->
  handleAuthNonceResponse p w =
    (tt, set_webLoginKey (GetWebapiAuthenticateUserNonce msg) w, []).
Proof.
  intros Hread Hflag. unfold handleAuthNonceResponse. rewrite Hread.
  run_method. cbn [relogOnNonce set_webLoginKey].
  destruct (Z.eqb_spec (relogOnNonce w) 1) as [E | _];
    [contradiction | reflexivity].
Qed.

(** C2. For a packet that reads as a nonce response, the handler stores
    the delivered nonce as [webLoginKey] in every case and swaps
    [relogOnNonce] from 1 to 0.  When the field was 1 it calls [LogOn]
    once, on the updated value: this starts one goroutine when the nonce
    is not empty, and otherwise the error of [LogOn] is logged, nothing
    else happens and the field stays 0.  When the field was not 1, the
    handler changes [webLoginKey] only and has no effect. *)
Theorem handleAuthNonceResponse_refresh p msg w :
  ReadProtoMsg_AuthNonceResponse p = Ok msg ->
  webLoginKey (web_of (handleAuthNonceResponse p w)) =
    GetWebapiAuthenticateUserNonce msg
  /\ (relogOnNonce w = 1 ->
      relogOnNonce (web_of (handleAuthNonceResponse p w)) = 0
      /\ web_of (handleAuthNonceResponse p w) =
           set_relogOnNonce 0
             (set_webLoginKey (GetWebapiAuthenticateUserNonce msg) w)
      /\ effects_of (handleAuthNonceResponse p w) =
           effects_of (LogOn (web_of (handleAuthNonceResponse p w)))
           ++ report (result_of (LogOn (web_of (handleAuthNonceResponse p w))))
      /\ (GetWebapiAuthenticateUserNonce msg <> EmptyString ->
          effects_of (handleAuthNonceResponse p w) = [Go LogOn_func1])
      /\ (GetWebapiAuthenticateUserNonce msg = EmptyString ->
          effects_of (handleAuthNonceResponse p w) =
            [Errorf "web: error logging on: %v" not_initialized]))
  /\ (relogOnNonce w <> 1 ->
      web_of (handleAuthNonceResponse p w) =
        set_webLoginKey (GetWebapiAuthenticateUserNonce msg) w
      /\ relogOnNonce (web_of (handleAuthNonceResponse p w)) = relogOnNonce w
      /\ effects_of (handleAuthNonceResponse p w) = []).
Proof.
  intros Hread.
  destruct (Z.eq_dec (relogOnNonce w) 1) as [Hflag | Hflag].
  - rewrite (handleAuthNonceResponse_armed p msg w Hread Hflag).
    unfold web_of, effects_of, result_of. cbn [fst snd].
    split; [reflexivity |]. split; [| intros; contradiction].
    intros _. repeat split.
    + intros Hne. rewrite LogOn_initialized by exact Hne. reflexivity.
    + intros He. rewrite LogOn_empty by exact He. reflexivity.
  - rewrite (handleAuthNonceResponse_idle p msg w Hread Hflag).
    unfold web_of, effects_of. cbn [fst snd].
    split; [reflexivity |]. split; [intros; contradiction |].
    intros _. repeat split.
Qed.

(** Packets alone never start a log-on while [relogOnNonce] is 0. *)
Lemma deliver_quiescent ps : forall w,
  relogOnNonce w = 0 ->
  relogOnNonce (web_of (deliver ps w)) = 0
  /\ spawned (effects_of (deliver ps w)) = []
  /\ attempts (effects_of (deliver ps w)) = 0%nat
  /\ logOnErrors (effects_of (deliver ps w)) = [].
Proof.
  induction ps as [| p ps IH]; intros w Hflag.
  - cbn. repeat split; assumption.
  - cbn [deliver]. unfold bind, web_of, effects_of.
    assert (Hp : relogOnNonce (HandlePacket p w).1.2 = 0
                 /\ spawned (HandlePacket p w).2 = []
                 /\ attempts (HandlePacket p w).2 = 0%nat
                 /\ logOnErrors (HandlePacket p w).2 = []).
    { unfold HandlePacket.
      destruct (packet_EMsg p); try (cbn; repeat split; assumption).
      - unfold handleNewLoginKey.
        destruct (ReadProtoMsg_NewLoginKey p); run_method;
          cbn; repeat split; assumption.
      - destruct (ReadProtoMsg_AuthNonceResponse p) as [msg | e] eqn:Hread.
        + rewrite (handleAuthNonceResponse_idle p msg w Hread) by lia.
          cbn. repeat split; assumption.
        + unfold handleAuthNonceResponse. rewrite Hread. run_method.
          cbn. repeat split; assumption. }
    destruct (HandlePacket p w) as [[[] w1] t1]. cbn [fst snd] in Hp.
    destruct Hp as (Hflag1 & Hs1 & Ha1 & He1).
    specialize (IH w1 Hflag1). unfold web_of, effects_of in IH.
    destruct (deliver ps w1) as [[[] w2] t2]. cbn [fst snd] in IH |- *.
    destruct IH as (Hflag2 & Hs2 & Ha2 & He2).
    unfold spawned, attempts, logOnErrors, emitted in *.
    rewrite !omap_app, filter_app, length_app.
    rewrite Hs1, Hs2, He1, He2.
    unfold attempts in Ha1, Ha2. rewrite Ha1, Ha2.
    repeat split; assumption.
Qed.

(** C10. When a nonce response delivers the empty string while
    [relogOnNonce] is 1, the handler stores the empty string, sets the
    field to 0 and logs the error of [LogOn]; it starts no goroutine and
    emits no event.  Whatever packets follow, the field stays 0, no
    goroutine is started, no attempt is made and no log-on error event
    is emitted. *)
Theorem handleAuthNonceResponse_empty_nonce p msg w ps :
  ReadProtoMsg_AuthNonceResponse p = Ok msg ->
  GetWebapiAuthenticateUserNonce msg = EmptyString ->
  relogOnNonce w = 1 ->
  handleAuthNonceResponse p w =
    (tt, set_relogOnNonce 0 (set_webLoginKey EmptyString w),
     [Errorf "web: error logging on: %v" not_initialized])
  /\ webLoginKey (web_of (handleAuthNonceResponse p w)) = EmptyString
  /\ relogOnNonce (web_of (handleAuthNonceResponse p w)) = 0
  /\ result_of (LogOn (web_of (handleAuthNonceResponse p w))) = Some not_initialized
  /\ spawned (effects_of (handleAuthNonceResponse p w)) = []
  /\ emitted (effects_of (handleAuthNonceResponse p w)) = []
  /\ relogOnNonce
       (web_of (deliver ps (web_of (handleAuthNonceResponse p w)))) = 0
  /\ spawned
       (effects_of (deliver ps (web_of (handleAuthNonceResponse p w)))) = []
  /\ attempts
       (effects_of (deliver ps (web_of (handleAuthNonceResponse p w)))) = 0%nat
  /\ logOnErrors
       (effects_of (deliver ps (web_of (handleAuthNonceResponse p w)))) = [].
Proof.
  intros Hread Hempty Hflag.
  rewrite (handleAuthNonceResponse_armed p msg w Hread Hflag), Hempty.
  rewrite LogOn_empty by reflexivity.
  unfold web_of at 1 2 3, effects_of at 1 2, result_of. cbn [fst snd app report].
  split; [reflexivity |]. split; [reflexivity |]. split; [reflexivity |].
  split; [rewrite LogOn_empty by reflexivity; reflexivity |].
  split; [reflexivity |]. split; [reflexivity |].
  apply deliver_quiescent. reflexivity.
Qed.

End Handlers.

Section Retry.

Context {Cipher : Type} `{!Collaborators Cipher}.
Implicit Types (o : Oracle Cipher) (w : Web) (env : nat -> Oracle Cipher).

(** One run of [apiLogOn] is one attempt; it starts no goroutine and
    emits no log-on error event of its own. *)
Lemma apiLogOn_one_attempt o w :
  attempts (effects_of (apiLogOn o w)) = 1%nat
  /\ logOnErrors (effects_of (apiLogOn o w)) = []
  /\ spawned (effects_of (apiLogOn o w)) = [].
Proof. by_outcome o w; repeat split. Qed.

(** The goroutine, by the results of its attempts. *)
Lemma LogOn_go_unfold env w :
  LogOn_go env w =
    match result_of (attempt1 env w) with
    | None => (tt, web_of (attempt1 env w), effects_of (attempt1 env w))
    | Some _ =>
        match result_of (attempt2 env w) with
        | None =>
            (tt, web_of (attempt2 env w),
             effects_of (attempt1 env w) ++ effects_of (attempt2 env w))
        | Some _ =>
            match result_of (attempt3 env w) with
            | None =>
                (tt, web_of (attempt3 env w),
                 effects_of (attempt1 env w) ++ effects_of (attempt2 env w)
                 ++ effects_of (attempt3 env w))
            | Some e3 =>
                (tt, web_of (attempt3 env w),
                 effects_of (attempt1 env w) ++ effects_of (attempt2 env w)
                 ++ effects_of (attempt3 env w)
                 ++ [Emit (WebLogOnErrorEvent e3)])
            end
        end
    end.
Proof.
  unfold attempt3, attempt2, attempt1, LogOn_go, bind, ret, client_Emit, effect,
    result_of, web_of, effects_of.
  destruct (apiLogOn (env 0%nat) w) as [[[e1|] w1] t1]; cbn [fst snd].
  2: { now rewrite !app_nil_r. }
  destruct (apiLogOn (env 1%nat) w1) as [[[e2|] w2] t2]; cbn [fst snd].
  2: { now rewrite !app_nil_r. }
  destruct (apiLogOn (env 2%nat) w2) as [[[e3|] w3] t3]; cbn [fst snd].
  - now rewrite <- !app_assoc.
  - now rewrite !app_nil_r, <- ?app_assoc.
Qed.

Lemma effects_of_run {A} (a : A) w t : effects_of (a, w, t) = t.
Proof. reflexivity. Qed.

Lemma attempts_app t1 t2 : attempts (t1 ++ t2) = (attempts t1 + attempts t2)%nat.
Proof. unfold attempts. now rewrite omap_app, length_app. Qed.

Lemma logOnErrors_app t1 t2 :
  logOnErrors (t1 ++ t2) = logOnErrors t1 ++ logOnErrors t2.
Proof. unfold logOnErrors, emitted. now rewrite omap_app, filter_app. Qed.

(** C3. [LogOn] with a non-empty [webLoginKey] returns nil and starts one
    goroutine.  Whenever that goroutine runs, it runs [apiLogOn] at least
    once and at most three times, one run straight after the other: the
    second only if the first returned an error, the third only if the
    second did.  A first attempt answered with status 401 returns nil, so
    it is the only one.  When all three return an error the goroutine
    emits one [WebLogOnErrorEvent], carrying the third error, as its last
    effect; otherwise it emits none. *)
Theorem LogOn_three_attempts env w w0 :
  webLoginKey w <> EmptyString ->
  LogOn w = (None, w, [Go LogOn_func1])
  /\ (1 <= attempts (effects_of (run_GoFunc LogOn_func1 env w0)) <= 3)%nat
  /\ (result_of (attempt1 env w0) = None ->
      run_GoFunc LogOn_func1 env w0 =
        (tt, web_of (attempt1 env w0), effects_of (attempt1 env w0))
      /\ attempts (effects_of (run_GoFunc LogOn_func1 env w0)) = 1%nat
      /\ logOnErrors (effects_of (run_GoFunc LogOn_func1 env w0)) = [])
  /\ (result_of (attempt1 env w0) <> None ->
      result_of (attempt2 env w0) = None ->
      run_GoFunc LogOn_func1 env w0 =
        (tt, web_of (attempt2 env w0),
         effects_of (attempt1 env w0) ++ effects_of (attempt2 env w0))
      /\ attempts (effects_of (run_GoFunc LogOn_func1 env w0)) = 2%nat
      /\ logOnErrors (effects_of (run_GoFunc LogOn_func1 env w0)) = [])
  /\ (result_of (attempt1 env w0) <> None ->
      result_of (attempt2 env w0) <> None ->
      result_of (attempt3 env w0) = None ->
      run_GoFunc LogOn_func1 env w0 =
        (tt, web_of (attempt3 env w0),
         effects_of (attempt1 env w0) ++ effects_of (attempt2 env w0)
         ++ effects_of (attempt3 env w0))
      /\ attempts (effects_of (run_GoFunc LogOn_func1 env w0)) = 3%nat
      /\ logOnErrors (effects_of (run_GoFunc LogOn_func1 env w0)) = [])
  /\ (forall e3,
      result_of (attempt1 env w0) <> None ->
      result_of (attempt2 env w0) <> None ->
      result_of (attempt3 env w0) = Some e3 ->
      run_GoFunc LogOn_func1 env w0 =
        (tt, web_of (attempt3 env w0),
         effects_of (attempt1 env w0) ++ effects_of (attempt2 env w0)
         ++ effects_of (attempt3 env w0) ++ [Emit (WebLogOnErrorEvent e3)])
      /\ attempts (effects_of (run_GoFunc LogOn_func1 env w0)) = 3%nat
      /\ logOnErrors (effects_of (run_GoFunc LogOn_func1 env w0)) =
           [WebLogOnErrorEvent e3])
  /\ (forall resp,
      answered (env 0%nat) w0 resp ->
      StatusCode resp = 401 ->
      attempts (effects_of (run_GoFunc LogOn_func1 env w0)) = 1%nat
      /\ logOnErrors (effects_of (run_GoFunc LogOn_func1 env w0)) = []).
Proof.
  intros Hkey. split; [now apply LogOn_initialized |].
  cbn [run_GoFunc]. rewrite LogOn_go_unfold.
  assert (H401 : forall resp,
             answered (env 0%nat) w0 resp ->
             StatusCode resp = 401 -> result_of (attempt1 env w0) = None).
  { intros resp Hans Hst. unfold attempt1.
    now apply apiLogOn_stale_returns_nil with resp. }
  pose proof (apiLogOn_one_attempt (env 0%nat) w0) as (A1 & E1 & _).
  pose proof (apiLogOn_one_attempt (env 1%nat) (web_of (attempt1 env w0)))
    as (A2 & E2 & _).
  pose proof (apiLogOn_one_attempt (env 2%nat) (web_of (attempt2 env w0)))
    as (A3 & E3 & _).
  fold (attempt1 env w0) in A1, E1.
  fold (attempt2 env w0) in A2, E2.
  fold (attempt3 env w0) in A3, E3.
  destruct (result_of (attempt1 env w0)) as [e1|] eqn:R1.
  2: { rewrite !effects_of_run, A1, E1.
       repeat split; try lia; try congruence; intros; congruence. }
  destruct (result_of (attempt2 env w0)) as [e2|] eqn:R2.
  2: { rewrite !effects_of_run.
       rewrite !attempts_app, !logOnErrors_app, A1, A2, E1, E2.
       repeat split; try lia; try congruence; intros; try congruence.
       all: exfalso; specialize (H401 _ ltac:(eassumption) ltac:(eassumption));
         congruence. }
  destruct (result_of (attempt3 env w0)) as [e3|] eqn:R3.
  2: { rewrite !effects_of_run.
       rewrite !attempts_app, !logOnErrors_app, A1, A2, A3, E1, E2, E3.
       repeat split; try lia; try congruence; intros; try congruence.
       all: exfalso; specialize (H401 _ ltac:(eassumption) ltac:(eassumption));
         congruence. }
  rewrite !effects_of_run.
  rewrite !attempts_app, !logOnErrors_app, A1, A2, A3, E1, E2, E3.
  repeat split; try lia; try congruence; intros; try congruence.
  all: try (exfalso; specialize (H401 _ ltac:(eassumption) ltac:(eassumption));
            congruence).
  all: try (cbn; lia).
  all: match goal with
       | A : Some _ = Some _ |- _ => injection A as <-
       end; reflexivity.
Qed.

End Retry.

(** ** The decimal rendering can be read back *)

Lemma bytes_of_string_of_bytes (b : bytes) :
  bytes_of_string (string_of_bytes b) = b.
Proof. apply list_byte_of_string_of_list_byte. Qed.

Lemma digit_val_digit d :
  0 <= d < 10 -> strconv.digit_val (strconv.digit d) = Some d.
Proof.
  intros Hd.
  assert (Hcases : d = 0 \/ d = 1 \/ d = 2 \/ d = 3 \/ d = 4 \/ d = 5
                   \/ d = 6 \/ d = 7 \/ d = 8 \/ d = 9) by lia.
  repeat (destruct Hcases as [-> | Hcases]; [reflexivity |]).
  subst d. reflexivity.
Qed.

(** What [formatBits] puts in front of the buffer reads as [u]. *)
Lemma formatBits_reads room : forall u a,
  0 <= u < 10 ^ Z.of_nat (S room) ->
  exists ds,
    strconv.formatBits (S room) u a = ds ++ a
    /\ ds <> []
    /\ forall acc rest,
        strconv.parseDigits acc (ds ++ rest) =
          strconv.parseDigits (acc * 10 ^ Z.of_nat (length ds) + u) rest.
Proof.
  induction room as [| room IH]; intros u a Hu.
  - change (10 ^ Z.of_nat 1) with 10 in Hu.
    exists [strconv.digit u]. cbn [strconv.formatBits].
    destruct (Z.ltb_spec u 10) as [_ | Hge]; [| lia].
    split; [reflexivity |]. split; [discriminate |].
    intros acc rest. cbn [app strconv.parseDigits length].
    rewrite digit_val_digit by lia.
    change (10 ^ Z.of_nat 1) with 10. reflexivity.
  - cbn [strconv.formatBits].
    destruct (Z.ltb_spec u 10) as [Hlt | Hge].
    + exists [strconv.digit u].
      split; [reflexivity |]. split; [discriminate |].
      intros acc rest. cbn [app strconv.parseDigits length].
      rewrite digit_val_digit by lia.
      change (10 ^ Z.of_nat 1) with 10. reflexivity.
    + assert (Hq : 0 <= u / 10 < 10 ^ Z.of_nat (S room)).
      { split; [apply Z.div_pos; lia |].
        apply Z.div_lt_upper_bound; [lia |].
        replace (Z.of_nat (S (S room))) with (Z.of_nat (S room) + 1) in Hu by lia.
        rewrite Z.pow_add_r in Hu by lia. lia. }
      destruct (IH (u / 10) (strconv.digit (u mod 10) :: a) Hq)
        as (ds & Hfmt & Hne & Hparse).
      exists (ds ++ [strconv.digit (u mod 10)]).
      split; [rewrite <- app_assoc; exact Hfmt |].
      split; [intros E; apply app_eq_nil in E as [_ E]; discriminate |].
      intros acc rest. rewrite <- app_assoc, Hparse.
      cbn [app strconv.parseDigits].
      rewrite digit_val_digit by (apply Z.mod_pos_bound; lia).
      f_equal. rewrite length_app. cbn [length].
      replace (Z.of_nat (length ds + 1)) with (Z.of_nat (length ds) + 1) by lia.
      rewrite Z.pow_add_r by lia.
      pose proof (Z.div_mod u 10 ltac:(lia)). lia.
Qed.

Lemma FormatUint_ParseUint u :
  0 <= u < 2 ^ 64 -> strconv.ParseUint (strconv.FormatUint u) = Some u.
Proof.
  intros Hu. unfold strconv.ParseUint, strconv.FormatUint.
  rewrite bytes_of_string_of_bytes.
  destruct (formatBits_reads 64 u []) as (ds & Hfmt & Hne & Hparse).
  { split; [lia |]. apply Z.lt_trans with (2 ^ 64); [lia | reflexivity]. }
  rewrite Hfmt, app_nil_r.
  specialize (Hparse 0 []). rewrite app_nil_r in Hparse.
  destruct ds as [| b ds]; [contradiction |].
  rewrite Hparse. cbn [strconv.parseDigits]. f_equal.
Qed.

(** ** The base-64 text can be read back *)

Lemma testbit_above a k i :
  0 <= a < 2 ^ k -> k <= i -> Z.testbit a i = false.
Proof.
  intros [Ha Hk] Hi.
  destruct (Z.eq_dec a 0) as [-> | Hne]; [apply Z.testbit_0_l |].
  apply Z.bits_above_log2; [assumption |].
  assert (Z.log2 a < k) by (apply Z.log2_lt_pow2; lia). lia.
Qed.

(** Push [Z.testbit] through the bit operations of the encoder. *)
Ltac testbits :=
  repeat match goal with
    | |- context [Z.testbit (Z.lor ?a ?b) ?n] => rewrite (Z.lor_spec a b n)
    | |- context [Z.testbit (Z.land ?a ?b) ?n] => rewrite (Z.land_spec a b n)
    | |- context [Z.testbit ?a ?n] => rewrite (Z.testbit_neg_r a n) by lia
    | |- context [Z.testbit (Z.shiftl ?a ?k) ?n] =>
        rewrite (Z.shiftl_spec a k n) by lia
    | |- context [Z.testbit (Z.shiftr ?a ?k) ?n] =>
        rewrite (Z.shiftr_spec a k n) by lia
    | |- context [Z.testbit (Z.ones ?k) ?n] =>
        rewrite (Z.testbit_ones_nonneg k n) by lia
    | |- context [Z.testbit 0 ?n] => rewrite (Z.testbit_0_l n)
    | H : 0 <= ?a < 2 ^ ?k |- context [Z.testbit ?a ?n] =>
        rewrite (testbit_above a k n H) by lia
    end.

Ltac decide_ltb :=
  repeat match goal with
    | |- context [?a <? ?b] =>
        first [ replace (a <? b) with true by (symmetry; apply Z.ltb_lt; lia)
              | replace (a <? b) with false by (symmetry; apply Z.ltb_ge; lia) ]
    end.

Ltac bit_ranges i :=
  let c := fresh in
  assert (c : i < 2 \/ 2 <= i < 4 \/ 4 <= i < 6 \/ 6 <= i < 8 \/ 8 <= i < 12
              \/ 12 <= i < 16 \/ 16 <= i < 18 \/ 18 <= i < 24 \/ 24 <= i)
    by lia;
  repeat destruct c as [c | c].

(** Equality of two bit patterns built from shifts and masks. *)
Ltac bits_eq :=
  let i := fresh "i" in
  let Hi := fresh "Hi" in
  apply Z.bits_inj'; intros i Hi;
  change 63 with (Z.ones 6); change 255 with (Z.ones 8);
  bit_ranges i; testbits; decide_ltb;
  rewrite ?andb_true_r, ?andb_false_r, ?orb_false_r, ?orb_false_l;
  first [ reflexivity | f_equal; lia ].

Lemma byte_to_Z_range b : 0 <= byte_to_Z b < 2 ^ 8.
Proof.
  unfold byte_to_Z. pose proof (Byte.to_N_bounded b).
  change (2 ^ 8) with 256. lia.
Qed.

Lemma byte_of_to_Z b : byte_of_Z (byte_to_Z b) = b.
Proof.
  unfold byte_of_Z, byte_to_Z. now rewrite N2Z.id, Byte.of_to_N.
Qed.

Lemma sextet_range v sh : 0 <= base64.sextet v sh < 64.
Proof.
  unfold base64.sextet. change 63 with (Z.ones 6).
  rewrite Z.land_ones by lia. apply Z.mod_pos_bound. reflexivity.
Qed.

Lemma group3_octets b0 b1 b2 :
  0 <= b0 < 2 ^ 8 -> 0 <= b1 < 2 ^ 8 -> 0 <= b2 < 2 ^ 8 ->
  Z.land
    (Z.shiftr
       (base64.join4 (base64.sextet (base64.join3 b0 b1 b2) 18)
          (base64.sextet (base64.join3 b0 b1 b2) 12)
          (base64.sextet (base64.join3 b0 b1 b2) 6)
          (base64.sextet (base64.join3 b0 b1 b2) 0)) 16) 255 = b0
  /\ Z.land
       (Z.shiftr
          (base64.join4 (base64.sextet (base64.join3 b0 b1 b2) 18)
             (base64.sextet (base64.join3 b0 b1 b2) 12)
             (base64.sextet (base64.join3 b0 b1 b2) 6)
             (base64.sextet (base64.join3 b0 b1 b2) 0)) 8) 255 = b1
  /\ Z.land
       (Z.shiftr
          (base64.join4 (base64.sextet (base64.join3 b0 b1 b2) 18)
             (base64.sextet (base64.join3 b0 b1 b2) 12)
             (base64.sextet (base64.join3 b0 b1 b2) 6)
             (base64.sextet (base64.join3 b0 b1 b2) 0)) 0) 255 = b2.
Proof.
  intros R0 R1 R2. unfold base64.join4, base64.join3, base64.sextet.
  repeat split; bits_eq.
Qed.

Lemma group2_octets b0 b1 :
  0 <= b0 < 2 ^ 8 -> 0 <= b1 < 2 ^ 8 ->
  Z.land
    (Z.shiftr
       (base64.join4
          (base64.sextet (Z.lor (Z.shiftl b0 16) (Z.shiftl b1 8)) 18)
          (base64.sextet (Z.lor (Z.shiftl b0 16) (Z.shiftl b1 8)) 12)
          (base64.sextet (Z.lor (Z.shiftl b0 16) (Z.shiftl b1 8)) 6) 0)
       16) 255 = b0
  /\ Z.land
       (Z.shiftr
          (base64.join4
             (base64.sextet (Z.lor (Z.shiftl b0 16) (Z.shiftl b1 8)) 18)
             (base64.sextet (Z.lor (Z.shiftl b0 16) (Z.shiftl b1 8)) 12)
             (base64.sextet (Z.lor (Z.shiftl b0 16) (Z.shiftl b1 8)) 6) 0)
          8) 255 = b1.
Proof.
  intros R0 R1. unfold base64.join4, base64.sextet.
  repeat split; bits_eq.
Qed.

Lemma group1_octet b0 :
  0 <= b0 < 2 ^ 8 ->
  Z.land
    (Z.shiftr
       (base64.join4 (base64.sextet (Z.shiftl b0 16) 18)
          (base64.sextet (Z.shiftl b0 16) 12) 0 0) 16) 255 = b0.
Proof.
  intros R0. unfold base64.join4, base64.sextet. bits_eq.
Qed.

(** Every letter of the alphabet is found at its own index, and none is
    the padding character. *)
Lemma decodeChar_encode i :
  0 <= i < 64 ->
  base64.decodeChar (base64.encode i) = Some i
  /\ Byte.eqb (base64.encode i) base64.StdPadding = false.
Proof.
  intros Hi.
  assert (H : forallb
                (fun k =>
                   match base64.decodeChar (base64.encode (Z.of_nat k)) with
                   | Some j => j =? Z.of_nat k
                   | None => false
                   end
                   && negb (Byte.eqb (base64.encode (Z.of_nat k))
                              base64.StdPadding))
                (seq 0 64) = true) by (vm_compute; reflexivity).
  rewrite forallb_forall in H.
  specialize (H (Z.to_nat i)). rewrite Z2Nat.id in H by lia.
  assert (Hin : In (Z.to_nat i) (seq 0 64)) by (apply in_seq; lia).
  apply H in Hin. apply andb_true_iff in Hin as [Hd Hp].
  destruct (base64.decodeChar (base64.encode i)) as [j |]; [| discriminate].
  apply Z.eqb_eq in Hd. subst j.
  split; [reflexivity |]. now apply negb_true_iff in Hp.
Qed.

Lemma Decode_Encode n : forall src fuel,
  (length src <= n)%nat ->
  (length (base64.Encode src) <= 4 * fuel)%nat ->
  base64.Decode fuel (base64.Encode src) = Some src.
Proof.
  induction n as [| n IH]; intros src fuel Hn Hfuel.
  - destruct src; [| cbn in Hn; lia]. now destruct fuel.
  - destruct src as [| b0 [| b1 [| b2 rest]]].
    + now destruct fuel.
    + destruct fuel as [| fuel]; [cbn in Hfuel; lia |].
      cbn [base64.Encode base64.Decode].
      destruct (decodeChar_encode
                  (base64.sextet (Z.shiftl (byte_to_Z b0) 16) 18)
                  (sextet_range _ _)) as [-> _].
      destruct (decodeChar_encode
                  (base64.sextet (Z.shiftl (byte_to_Z b0) 16) 12)
                  (sextet_range _ _)) as [-> _].
      change (Byte.eqb base64.StdPadding base64.StdPadding) with true.
      cbn iota. unfold base64.octet.
      rewrite group1_octet by apply byte_to_Z_range.
      now rewrite byte_of_to_Z.
    + destruct fuel as [| fuel]; [cbn in Hfuel; lia |].
      cbn [base64.Encode base64.Decode].
      set (val := Z.lor (Z.shiftl (byte_to_Z b0) 16) (Z.shiftl (byte_to_Z b1) 8)).
      destruct (decodeChar_encode (base64.sextet val 18) (sextet_range _ _))
        as [-> _].
      destruct (decodeChar_encode (base64.sextet val 12) (sextet_range _ _))
        as [-> _].
      destruct (decodeChar_encode (base64.sextet val 6) (sextet_range _ _))
        as [-> ->].
      change (Byte.eqb base64.StdPadding base64.StdPadding) with true.
      cbn iota. unfold base64.octet. subst val.
      destruct (group2_octets (byte_to_Z b0) (byte_to_Z b1)
                  (byte_to_Z_range _) (byte_to_Z_range _)) as [-> ->].
      now rewrite !byte_of_to_Z.
    + destruct fuel as [| fuel]; [cbn in Hfuel; lia |].
      cbn [base64.Encode base64.Decode].
      set (val := base64.join3 (byte_to_Z b0) (byte_to_Z b1) (byte_to_Z b2)).
      destruct (decodeChar_encode (base64.sextet val 18) (sextet_range _ _))
        as [-> _].
      destruct (decodeChar_encode (base64.sextet val 12) (sextet_range _ _))
        as [-> _].
      destruct (decodeChar_encode (base64.sextet val 6) (sextet_range _ _))
        as [-> _].
      destruct (decodeChar_encode (base64.sextet val 0) (sextet_range _ _))
        as [-> ->].
      rewrite IH; [| cbn in Hn; lia | cbn in Hfuel |- *; lia].
      unfold base64.octet. subst val.
      destruct (group3_octets (byte_to_Z b0) (byte_to_Z b1) (byte_to_Z b2)
                  (byte_to_Z_range _) (byte_to_Z_range _) (byte_to_Z_range _))
        as (-> & -> & ->).
      now rewrite !byte_of_to_Z.
Qed.

Lemma DecodeString_EncodeToString src :
  base64.DecodeString (base64.EncodeToString src) = Some src.
Proof.
  unfold base64.DecodeString, base64.EncodeToString.
  rewrite bytes_of_string_of_bytes.
  apply (Decode_Encode (length src)); lia.
Qed.

Section NewLoginKey.

Context {Cipher : Type} `{!Collaborators Cipher}.

(** C6. For a packet that reads as a new-login-key message with unique
    id [n], the handler writes exactly one message, the acknowledgment
    carrying [n], stores as [SessionID] the base-64 text of the decimal
    digits of [n], and emits exactly one [WebSessionIDEvent], in this
    order.  Reading the stored text back as base 64 and then as a
    decimal number gives [n]; for 12345 the text is [MTIzNDU=]. *)
Theorem handleNewLoginKey_session_id (p : Packet) msg n (w : Web) :
  ReadProtoMsg_NewLoginKey p = Ok msg ->
  GetUniqueId msg = n ->
  0 <= n < 2 ^ 32 ->
  effects_of (handleNewLoginKey p w) = [Write (ack n); Emit WebSessionIDEvent]
  /\ written (effects_of (handleNewLoginKey p w)) = [ack n]
  /\ emitted (effects_of (handleNewLoginKey p w)) = [WebSessionIDEvent]
  /\ SessionID (web_of (handleNewLoginKey p w)) =
       base64.EncodeToString (bytes_of_string (strconv.FormatUint n))
  /\ web_of (handleNewLoginKey p w) =
       set_SessionID
         (base64.EncodeToString (bytes_of_string (strconv.FormatUint n))) w
  /\ (exists text,
         base64.DecodeString (SessionID (web_of (handleNewLoginKey p w))) =
           Some text
         /\ strconv.ParseUint (string_of_bytes text) = Some n)
  /\ (n = 12345 ->
      SessionID (web_of (handleNewLoginKey p w)) = "MTIzNDU="%string).
Proof.
  intros Hread Hid Hn. unfold handleNewLoginKey. rewrite Hread, Hid.
  run_method. cbn [SessionID set_SessionID].
  repeat split.
  - exists (bytes_of_string (strconv.FormatUint n)).
    split; [apply DecodeString_EncodeToString |].
    unfold string_of_bytes, bytes_of_string.
    rewrite string_of_list_byte_of_string.
    apply FormatUint_ParseUint. lia.
  - intros ->. vm_compute. reflexivity.
Qed.

(** A packet that does not read as a new-login-key message is logged and
    dropped. *)
Lemma handleNewLoginKey_malformed (p : Packet) e (w : Web) :
  ReadProtoMsg_NewLoginKey p = Fail e ->
  handleNewLoginKey p w =
    (tt, w, [Errorf "web: error reading message: %v" e]).
Proof.
  intros Hread. unfold handleNewLoginKey. rewrite Hread. reflexivity.
Qed.

End NewLoginKey.

(** ** The flag is a boolean on every reachable value *)

Section Reachable.

Context {Cipher : Type} `{!Collaborators Cipher}.

Lemma Step_relogOnNonce (w w' : Web) :
  Step w w' ->
  relogOnNonce w = 0 \/ relogOnNonce w = 1 ->
  relogOnNonce w' = 0 \/ relogOnNonce w' = 1.
Proof.
  intros Hstep Hflag. destruct Hstep as [p w | w | o w].
  - unfold HandlePacket. destruct (packet_EMsg p); try exact Hflag.
    + unfold handleNewLoginKey.
      destruct (ReadProtoMsg_NewLoginKey p); exact Hflag.
    + destruct (ReadProtoMsg_AuthNonceResponse p) as [msg | e] eqn:Hread.
      * destruct (Z.eq_dec (relogOnNonce w) 1) as [H1 | H1].
        -- rewrite (handleAuthNonceResponse_armed p msg w Hread H1).
           left. reflexivity.
        -- rewrite (handleAuthNonceResponse_idle p msg w Hread H1).
           exact Hflag.
      * unfold handleAuthNonceResponse. rewrite Hread. exact Hflag.
  - now rewrite LogOn_web.
  - by_outcome o w; cbn; auto.
Qed.

Lemma reachable_relogOnNonce (steamID : Z) (w : Web) :
  rtc Step (NewWeb steamID) w -> relogOnNonce w = 0 \/ relogOnNonce w = 1.
Proof.
  revert w. apply rtc_ind_r.
  - left. reflexivity.
  - intros w1 w2 _ Hstep IH. eapply Step_relogOnNonce; eassumption.
Qed.

End Reachable.

(** * The methods run on concrete inputs *)

#[local] Existing Instance Demo.collaborators.

Example FormatUint_12345 : strconv.FormatUint 12345 = "12345"%string.
Proof. reflexivity. Qed.

Example FormatUint_0 : strconv.FormatUint 0 = "0"%string.
Proof. reflexivity. Qed.

Example FormatUint_max64 :
  strconv.FormatUint (2 ^ 64 - 1) = "18446744073709551615"%string.
Proof. vm_compute. reflexivity. Qed.

Example EncodeToString_12345 :
  base64.EncodeToString (bytes_of_string "12345") = "MTIzNDU="%string.
Proof. vm_compute. reflexivity. Qed.

Example EncodeToString_foobar :
  base64.EncodeToString (bytes_of_string "foobar") = "Zm9vYmFy"%string
  /\ base64.EncodeToString (bytes_of_string "f") = "Zg=="%string
  /\ base64.DecodeString "Zm9vYg==" = Some (bytes_of_string "foob").
Proof. vm_compute. repeat split. Qed.

Example LogOn_go_unreachable :
  emitted (effects_of (LogOn_go (fun _ => Demo.unreachable) Demo.web0)) =
    [WebLogOnErrorEvent (Err "dial tcp: i/o timeout")]
  /\ attempts (effects_of (LogOn_go (fun _ => Demo.unreachable) Demo.web0)) = 3%nat.
Proof. vm_compute. split; reflexivity. Qed.

Lemma apiLogOn_status_401_witness :
  relogOnNonce
    (web_of (apiLogOn (Demo.answering (Ok Demo.resp401)) Demo.web0)) = 1
  /\ written
       (effects_of (apiLogOn (Demo.answering (Ok Demo.resp401)) Demo.web0)) =
     [refresh_request].
Proof.
  destruct (@apiLogOn_status_401 bytes Demo.collaborators
              (Demo.answering (Ok Demo.resp401)) Demo.web0 Demo.resp401)
    as (_ & H1 & H2 & _).
  - eexists _, _. split; [left; reflexivity | reflexivity].
  - reflexivity.
  - split; assumption.
Defined.

Lemma handleAuthNonceResponse_refresh_witness :
  effects_of
    (handleAuthNonceResponse Demo.packet_Nonce_fresh
       (set_relogOnNonce 1 Demo.web0)) = [Go LogOn_func1]
  /\ webLoginKey
       (web_of (handleAuthNonceResponse Demo.packet_Nonce_fresh
                  (set_relogOnNonce 1 Demo.web0))) = "fresh"%string.
Proof.
  destruct (@handleAuthNonceResponse_refresh bytes Demo.collaborators
              Demo.packet_Nonce_fresh
              {| WebapiAuthenticateUserNonce := Some "fresh"%string |}
              (set_relogOnNonce 1 Demo.web0))
    as (Hkey & Harmed & _).
  - reflexivity.
  - destruct (Harmed eq_refl) as (_ & _ & _ & Hgo & _).
    split; [apply Hgo; discriminate | exact Hkey].
Defined.

Lemma LogOn_three_attempts_witness :
  LogOn Demo.web0 = (None, Demo.web0, [Go LogOn_func1])
  /\ (1 <= attempts
            (effects_of
               (run_GoFunc LogOn_func1 (fun _ => Demo.unreachable) Demo.web0))
      <= 3)%nat.
Proof.
  destruct (@LogOn_three_attempts bytes Demo.collaborators
              (fun _ => Demo.unreachable) Demo.web0 Demo.web0)
    as (H1 & H2 & _).
  - discriminate.
  - split; assumption.
Defined.

Lemma LogOn_not_initialized_witness :
  result_of (LogOn (NewWeb 76561197960265728)) = Some not_initialized
  /\ effects_of (LogOn (NewWeb 76561197960265728)) = [].
Proof.
  destruct (LogOn_not_initialized (NewWeb 76561197960265728))
    as (H1 & _ & H2 & _).
  - reflexivity.
  - split; assumption.
Defined.

Lemma apiLogOn_status_200_witness :
  SteamLogin
    (web_of (apiLogOn (Demo.answering (Ok Demo.resp200)) Demo.web0)) =
    "tok"%string
  /\ SteamLoginSecure
       (web_of (apiLogOn (Demo.answering (Ok Demo.resp200)) Demo.web0)) =
     "toksec"%string
  /\ emitted
       (effects_of (apiLogOn (Demo.answering (Ok Demo.resp200)) Demo.web0)) =
     [WebLoggedOnEvent].
Proof.
  destruct (@apiLogOn_status_200 bytes Demo.collaborators
              (Demo.answering (Ok Demo.resp200)) Demo.web0 Demo.resp200
              {| Token := "tok"; TokenSecure := "toksec" |})
    as (_ & H1 & H2 & H3 & _).
  - eexists _, _. split; [left; reflexivity | reflexivity].
  - reflexivity.
  - reflexivity.
  - repeat split; assumption.
Defined.

Lemma handleNewLoginKey_session_id_witness :
  effects_of (handleNewLoginKey Demo.packet_NewLoginKey_12345 Demo.web0) =
    [Write (ack 12345); Emit WebSessionIDEvent]
  /\ SessionID
       (web_of (handleNewLoginKey Demo.packet_NewLoginKey_12345
                  (NewWeb 76561197960265728))) = "MTIzNDU="%string.
Proof.
  split.
  - destruct (@handleNewLoginKey_session_id bytes Demo.collaborators
                Demo.packet_NewLoginKey_12345
                {| NewLoginKey_UniqueId := Some 12345 |} 12345 Demo.web0)
      as (H & _).
    + reflexivity.
    + reflexivity.
    + lia.
    + exact H.
  - destruct (@handleNewLoginKey_session_id bytes Demo.collaborators
                Demo.packet_NewLoginKey_12345
                {| NewLoginKey_UniqueId := Some 12345 |} 12345
                (NewWeb 76561197960265728))
      as (_ & _ & _ & _ & _ & _ & H).
    + reflexivity.
    + reflexivity.
    + lia.
    + apply H. reflexivity.
Defined.

Lemma apiLogOn_handshake_witness :
  exists src ck,
    rand_source (Demo.answering (Ok Demo.resp200)) = Ok src
    /\ length (sessionKey_of src) = 32%nat
    /\ RSAEncrypt (Demo.answering (Ok Demo.resp200))
         (GetPublicKey EUniverse_Public) (sessionKey_of src) = Ok ck.
Proof.
  edestruct (@apiLogOn_handshake bytes Demo.collaborators
              (Demo.answering (Ok Demo.resp200)) Demo.web0
              AuthenticateUser_URL)
    as (_ & _ & src & ck & ciph & cl & H1 & H2 & _ & _ & H3 & _).
  - left. reflexivity.
  - exists src, ck. repeat split; assumption.
Defined.

Lemma apiLogOn_crypto_failure_witness :
  result_of (apiLogOn Demo.no_entropy Demo.web0) = Some (Err "unexpected EOF")
  /\ requests (effects_of (apiLogOn Demo.no_entropy Demo.web0)) = [].
Proof.
  destruct (@apiLogOn_crypto_failure bytes Demo.collaborators
              Demo.no_entropy Demo.web0 (Err "unexpected EOF"))
    as (H1 & _ & H2 & _).
  - apply fail_rand. reflexivity.
  - split; assumption.
Defined.

Lemma apiLogOn_protocol_error_witness :
  web_of (apiLogOn (Demo.answering (Ok Demo.resp503)) Demo.web0) = Demo.web0
  /\ emitted
       (effects_of (apiLogOn (Demo.answering (Ok Demo.resp503)) Demo.web0)) = [].
Proof.
  destruct (@apiLogOn_protocol_error bytes Demo.collaborators
              (Demo.answering (Ok Demo.resp503)) Demo.web0 Demo.resp503)
    as (_ & H1 & H2 & _).
  - eexists _, _. split; [left; reflexivity | reflexivity].
  - left. cbn. lia.
  - split; assumption.
Defined.

Lemma handleAuthNonceResponse_empty_nonce_witness :
  handleAuthNonceResponse Demo.packet_Nonce_empty (set_relogOnNonce 1 Demo.web0) =
    (tt, set_relogOnNonce 0 (set_webLoginKey EmptyString (set_relogOnNonce 1 Demo.web0)),
     [Errorf "web: error logging on: %v" not_initialized])
  /\ spawned
       (effects_of
          (deliver [Demo.packet_Nonce_fresh; Demo.packet_NewLoginKey_12345]
             (web_of (handleAuthNonceResponse Demo.packet_Nonce_empty
                        (set_relogOnNonce 1 Demo.web0))))) = [].
Proof.
  destruct (@handleAuthNonceResponse_empty_nonce bytes Demo.collaborators
              Demo.packet_Nonce_empty
              {| WebapiAuthenticateUserNonce := Some EmptyString |}
              (set_relogOnNonce 1 Demo.web0)
              [Demo.packet_Nonce_fresh; Demo.packet_NewLoginKey_12345])
    as (H1 & _ & _ & _ & _ & _ & _ & H2 & _).
  - reflexivity.
  - reflexivity.
  - reflexivity.
  - split; assumption.
Defined.

(** * Package inventory: [Merge] and [GetFullInventory] *)

Section InventoryFacts.

Context {Item Description Currency : Type}.
#[local] Abbreviation Inv := (inventory.Inventory Item Description Currency).
#[local] Abbreviation Page :=
  (inventory.PartialInventory Item Description Currency).

Lemma range_assign_union {V} (visit : list (string * V)) : forall d,
  NoDup visit.*1 ->
  inventory.range_assign visit (Some d) =
    Returns (Some (list_to_map visit ∪ d)).
Proof.
  induction visit as [| [k v] visit IH]; intros d Hnd.
  - cbn. now rewrite (left_id_L ∅ (∪)).
  - cbn [inventory.range_assign inventory.assign].
    apply NoDup_cons in Hnd as [Hk Hnd].
    rewrite IH by exact Hnd. do 2 f_equal.
    cbn [list_to_map foldr uncurry fst snd].
    rewrite <- insert_union_l.
    rewrite insert_union_r; [reflexivity |].
    now apply not_elem_of_list_to_map_1.
Qed.

Lemma copy_entries_table {V} (src : inventory.gomap V) (dst : gmap string V) :
  inventory.copy_entries src (Some dst) =
    Returns (Some (inventory.table src ∪ dst)).
Proof.
  destruct src as [t |].
  - unfold inventory.copy_entries, inventory.entries.
    rewrite range_assign_union by apply NoDup_fst_map_to_list.
    now rewrite list_to_map_to_list.
  - cbn. now rewrite (left_id_L ∅ (∪)).
Qed.

(** X1. Copying the entries of one map into another gives the same
    result in whatever order the entries are visited: the source's
    entries on top of the destination's. *)
Theorem range_assign_any_order {V} (src dst : gmap string V)
    (visit : list (string * V)) :
  visit ≡ₚ map_to_list src ->
  inventory.range_assign visit (Some dst) = Returns (Some (src ∪ dst))
  /\ inventory.copy_entries (Some src) (Some dst) = Returns (Some (src ∪ dst)).
Proof.
  intros Hperm.
  assert (Hnd : NoDup visit.*1).
  { rewrite Hperm. apply NoDup_fst_map_to_list. }
  split.
  - rewrite range_assign_union by exact Hnd.
    rewrite (list_to_map_proper visit (map_to_list src)) by assumption.
    now rewrite list_to_map_to_list.
  - unfold inventory.copy_entries, inventory.entries.
    rewrite range_assign_union by apply NoDup_fst_map_to_list.
    now rewrite list_to_map_to_list.
Qed.

Lemma copy_entries_nil {V} (src : inventory.gomap V) :
  inventory.copy_entries src None =
    if decide (inventory.table src = ∅) then Returns None
    else Panics "assignment to entry in nil map".
Proof.
  destruct src as [t |]; [| reflexivity].
  unfold inventory.copy_entries, inventory.entries, inventory.table.
  change (default ∅ (Some t)) with t.
  destruct (decide (t = ∅)) as [-> | Hne].
  - now rewrite map_to_list_empty.
  - destruct (map_to_list t) as [| [k v] l] eqn:Hl; [| reflexivity].
    now apply map_to_list_empty_iff in Hl.
Qed.

Lemma merge_one_tables (inv i : Inv) items descriptions currencies :
  inventory.Items inv = Some items ->
  inventory.Descriptions inv = Some descriptions ->
  inventory.Currencies inv = Some currencies ->
  inventory.merge_one inv i =
    Returns
      {| inventory.Items :=
           Some (inventory.table (inventory.Items i) ∪ items);
         inventory.Descriptions :=
           Some (inventory.table (inventory.Descriptions i) ∪ descriptions);
         inventory.Currencies :=
           Some (inventory.table (inventory.Currencies i) ∪ currencies) |}.
Proof.
  intros Hi Hd Hc. unfold inventory.merge_one.
  now rewrite Hi, Hd, Hc, !copy_entries_table.
Qed.

Lemma merge_loop_skip (idx : nat) (inv : Inv) (p : list Inv) :
  inventory.merge_loop (S idx) inv p = inventory.merge_loop 1 inv p.
Proof.
  revert idx inv. induction p as [| i p IH]; intros idx inv; [reflexivity |].
  cbn [inventory.merge_loop Nat.eqb].
  destruct (inventory.merge_one inv i); [| reflexivity].
  now rewrite (IH (S idx)), (IH 1%nat).
Qed.

Lemma merge_loop_app (inv : Inv) (p q : list Inv) :
  inventory.merge_loop 1 inv (p ++ q) =
    match inventory.merge_loop 1 inv p with
    | Returns inv' => inventory.merge_loop 1 inv' q
    | Panics msg => Panics msg
    end.
Proof.
  revert inv. induction p as [| i p IH]; intros inv; [reflexivity |].
  cbn [app inventory.merge_loop Nat.eqb].
  destruct (inventory.merge_one inv i) as [inv' | msg]; [| reflexivity].
  rewrite !(merge_loop_skip 1). apply IH.
Qed.

(** X2. When the maps of the first inventory are not nil, merging a
    second one into it puts the entries of the second on top: a key of
    the second inventory gets the second's value, any other key keeps
    the first's. *)
Theorem Merge_later_wins (inv i : Inv) items descriptions currencies :
  inventory.Items inv = Some items ->
  inventory.Descriptions inv = Some descriptions ->
  inventory.Currencies inv = Some currencies ->
  exists merged,
    inventory.Merge [inv; i] = Returns merged
    /\ (forall key,
           inventory.table (inventory.Items merged) !! key =
             match inventory.table (inventory.Items i) !! key with
             | Some value => Some value
             | None => items !! key
             end)
    /\ (forall key,
           inventory.table (inventory.Descriptions merged) !! key =
             match inventory.table (inventory.Descriptions i) !! key with
             | Some value => Some value
             | None => descriptions !! key
             end)
    /\ (forall key,
           inventory.table (inventory.Currencies merged) !! key =
             match inventory.table (inventory.Currencies i) !! key with
             | Some value => Some value
             | None => currencies !! key
             end).
Proof.
  intros Hi Hd Hc. eexists. split.
  - cbn [inventory.Merge inventory.merge_loop Nat.eqb].
    rewrite (merge_one_tables inv i _ _ _ Hi Hd Hc). reflexivity.
  - cbn [inventory.Items inventory.Descriptions inventory.Currencies].
    change (inventory.table (Some ?m)) with m.
    repeat split; intros key; rewrite lookup_union;
      destruct (_ !! key), (_ !! key); reflexivity.
Qed.

(** X3. Merging a list in one call is merging its first part and then
    the rest into the result. *)
Theorem Merge_app (inv inv' : Inv) (p q : list Inv) :
  inventory.Merge (inv :: p) = Returns inv' ->
  inventory.Merge (inv :: p ++ q) = inventory.Merge (inv' :: q).
Proof.
  cbn [inventory.Merge inventory.merge_loop Nat.eqb].
  intros Hp. rewrite merge_loop_app, Hp. reflexivity.
Qed.

(** X4. [Merge] panics on the empty slice, and it panics when a map of
    the first inventory is nil while the same map of the second holds an
    entry: the entry cannot be assigned. *)
Theorem Merge_panics (inv i : Inv) :
  inventory.Items inv = None ->
  inventory.table (inventory.Items i) <> ∅ ->
  inventory.Merge (@nil Inv) =
    Panics "runtime error: index out of range [0] with length 0"
  /\ forall rest,
      inventory.Merge (inv :: i :: rest) =
        Panics "assignment to entry in nil map".
Proof.
  intros Hnil Hne. split; [reflexivity |]. intros rest.
  cbn [inventory.Merge inventory.merge_loop Nat.eqb].
  unfold inventory.merge_one. rewrite Hnil, copy_entries_nil.
  now rewrite decide_False.
Qed.

Section Paging.

Variable getFirst : result (option Page).
Variable getNext : Z -> result (option Page).

(** X5. A first page that succeeded and reports no further page is the
    whole result: its inventory is returned as it is and [getNext] is
    not called. *)
Theorem GetFullInventory_single_page (first : Page) (turns : nat) :
  getFirst = Ok (Some first) ->
  inventory.Success first = true ->
  inventory.More first = false ->
  inventory.GetFullInventory getFirst getNext (S turns) =
    Some (Returns (Ok (inventory.Inventory_ first)), []).
Proof.
  intros Hfirst Hs Hm. unfold inventory.GetFullInventory.
  rewrite Hfirst, Hs. cbn [negb inventory.pages]. now rewrite Hm.
Qed.

(** X6. A page that did not succeed ends the call with an error that
    carries the page's own message, whether it is the first page or the
    one asked for after it; an error of [getNext] is returned as it is.
    In both cases [getNext] was called once, for the start the first
    page named. *)
Theorem GetFullInventory_second_page_fails (first : Page) (turns : nat) :
  getFirst = Ok (Some first) ->
  inventory.Success first = true ->
  inventory.More first = true ->
  (forall err,
      getNext (inventory.MoreStart first) = Fail err ->
      inventory.GetFullInventory getFirst getNext (S turns) =
        Some (Returns (Fail err), [inventory.MoreStart first]))
  /\ (forall next,
         getNext (inventory.MoreStart first) = Ok (Some next) ->
         inventory.Success next = false ->
         inventory.GetFullInventory getFirst getNext (S turns) =
           Some (Returns (Fail (inventory.api_call_failed (inventory.Error next))),
                 [inventory.MoreStart first])).
Proof.
  intros Hfirst Hs Hm. unfold inventory.GetFullInventory.
  rewrite Hfirst, Hs. cbn [negb inventory.pages]. rewrite Hm.
  split.
  - intros err ->. reflexivity.
  - intros next -> ->. reflexivity.
Qed.

(** X7. When the first page reports a further page and that page is
    fetched and merged, the call does not return: the loop goes on with
    the outer [next], which is nil, and panics on [latest.More]. *)
Theorem GetFullInventory_second_page_panics
    (first next : Page) (merged : Inv) (turns : nat) :
  getFirst = Ok (Some first) ->
  inventory.Success first = true ->
  inventory.More first = true ->
  getNext (inventory.MoreStart first) = Ok (Some next) ->
  inventory.Success next = true ->
  inventory.Merge [inventory.Inventory_ first; inventory.Inventory_ next] =
    Returns merged ->
  inventory.GetFullInventory getFirst getNext (S (S turns)) =
    Some (Panics nil_dereference, [inventory.MoreStart first]).
Proof.
  intros Hfirst Hs Hm Hnext Hns Hmerge. unfold inventory.GetFullInventory.
  rewrite Hfirst, Hs. cbn [negb inventory.pages].
  rewrite Hm, Hnext, Hns. cbn [negb]. rewrite Hmerge. reflexivity.
Qed.

(** X8. Two turns of the loop are enough for every input.  The call asks
    [getNext] at most once, and whenever it returns an inventory, that
    is the inventory of a first page that reported no further page, and
    [getNext] was not asked at all. *)
Theorem GetFullInventory_returns_first_page_only (turns : nat) :
  exists out calls,
    inventory.GetFullInventory getFirst getNext (S (S turns)) = Some (out, calls)
    /\ (length calls <= 1)%nat
    /\ forall inv,
        out = Returns (Ok inv) ->
        calls = []
        /\ exists first,
            getFirst = Ok (Some first)
            /\ inventory.Success first = true
            /\ inventory.More first = false
            /\ inv = inventory.Inventory_ first.
Proof.
  unfold inventory.GetFullInventory.
  destruct getFirst as [[first |] | err] eqn:Hfirst.
  - destruct (inventory.Success first) eqn:Hs; cbn [negb].
    + cbn [inventory.pages].
      destruct (inventory.More first) eqn:Hm.
      * destruct (getNext (inventory.MoreStart first)) as [[next |] | err].
        -- destruct (inventory.Success next); cbn [negb].
           ++ destruct (inventory.Merge _) as [merged | msg].
              ** eexists _, _. split; [reflexivity |].
                 split; [cbn; lia |]. intros inv [=].
              ** eexists _, _. split; [reflexivity |].
                 split; [cbn; lia |]. intros inv [=].
           ++ eexists _, _. split; [reflexivity |].
              split; [cbn; lia |]. intros inv [=].
        -- eexists _, _. split; [reflexivity |].
           split; [cbn; lia |]. intros inv [=].
        -- eexists _, _. split; [reflexivity |].
           split; [cbn; lia |]. intros inv [=].
      * eexists _, _. split; [reflexivity |].
        split; [cbn; lia |]. intros inv [= <-].
        split; [reflexivity |]. exists first. repeat split; assumption.
    + eexists _, _. split; [reflexivity |].
      split; [cbn; lia |]. intros inv [=].
  - eexists _, _. split; [reflexivity |].
    split; [cbn; lia |]. intros inv [=].
  - eexists _, _. split; [reflexivity |].
    split; [cbn; lia |]. intros inv [=].
Qed.

End Paging.

(** X9. [InventoryApps.Get] and [Contexts.Get] find an entry stored
    under the decimal text of an id for that id and for no other: after
    such an insertion, asking for another id answers as before it. *)
Theorem Get_insert {V} (m : gmap string V) (a b : Z) (v : V) :
  0 <= a < 2 ^ 64 ->
  0 <= b < 2 ^ 64 ->
  inventory.InventoryApps_Get (<[strconv.FormatUint a := v]> m) b =
    (if decide (a = b) then Ok v else inventory.InventoryApps_Get m b)
  /\ inventory.Contexts_Get (<[strconv.FormatUint a := v]> m) b =
       (if decide (a = b) then Ok v else inventory.Contexts_Get m b).
Proof.
  intros Ha Hb.
  unfold inventory.InventoryApps_Get, inventory.Contexts_Get.
  destruct (decide (a = b)) as [-> | Hne].
  - now rewrite lookup_insert_eq.
  - rewrite lookup_insert_ne; [split; reflexivity |].
    intros Heq. apply Hne.
    pose proof (FormatUint_ParseUint a Ha) as Pa.
    pose proof (FormatUint_ParseUint b Hb) as Pb.
    rewrite Heq in Pa. congruence.
Qed.

End InventoryFacts.

(** * Further properties of the methods of [Web] *)

Section WebFacts.

Context {Cipher : Type} `{!Collaborators Cipher}.
Implicit Types (o : Oracle Cipher) (w : Web) (env : nat -> Oracle Cipher).

Lemma apiLogOn_error_web o w e :
  result_of (apiLogOn o w) = Some e ->
  web_of (apiLogOn o w) = w
  /\ emitted (effects_of (apiLogOn o w)) = []
  /\ written (effects_of (apiLogOn o w)) = [].
Proof.
  by_outcome o w; cbn; intros [=]; repeat split.
Qed.

(** X10. An attempt that returns an error has changed nothing: the
    [Web] value is as before, and no event was emitted and no message
    written. *)
Theorem apiLogOn_error_keeps_state o w e :
  result_of (apiLogOn o w) = Some e ->
  web_of (apiLogOn o w) = w
  /\ emitted (effects_of (apiLogOn o w)) = []
  /\ written (effects_of (apiLogOn o w)) = []
  /\ spawned (effects_of (apiLogOn o w)) = [].
Proof.
  by_outcome o w; cbn; intros [=]; repeat split.
Qed.

(** X11. An attempt returns nil exactly when its request was answered
    with status 401, or with status 200 and a body that decodes. *)
Theorem apiLogOn_nil_iff o w :
  result_of (apiLogOn o w) = None
  <-> exists resp,
      answered o w resp
      /\ (StatusCode resp = 401
          \/ (StatusCode resp = 200
              /\ exists res, json_Decode (Body resp) = Ok res)).
Proof.
  unfold answered. by_outcome o w; cbn; split;
    try discriminate;
    try (intros (resp' & (url & dat & Hin & Hpost) & Hcase);
         try (destruct Hin as [[= <- <-] | []]); try (destruct Hin);
         rewrite Hpost in *; try discriminate;
         repeat match goal with
                | A : Ok _ = Ok _ |- _ => injection A as ->
                end;
         destruct Hcase as [? | [? [res' ?]]]; congruence);
    try reflexivity.
  - intros _. exists resp. split; [| left; assumption].
    exists AuthenticateUser_URL, data. split; [left; reflexivity | assumption].
  - intros _. exists resp. split; [| right; split; [assumption | eauto]].
    exists AuthenticateUser_URL, data. split; [left; reflexivity | assumption].
Qed.

(** X12. No attempt touches [SessionID], [webLoginKey] or the account
    id; it leaves [relogOnNonce] as it was or sets it to 1; it sends at
    most one request and starts no goroutine. *)
Theorem apiLogOn_frame o w :
  SessionID (web_of (apiLogOn o w)) = SessionID w
  /\ webLoginKey (web_of (apiLogOn o w)) = webLoginKey w
  /\ client_SteamID (web_of (apiLogOn o w)) = client_SteamID w
  /\ (relogOnNonce (web_of (apiLogOn o w)) = relogOnNonce w
      \/ relogOnNonce (web_of (apiLogOn o w)) = 1)
  /\ (length (requests (effects_of (apiLogOn o w))) <= 1)%nat
  /\ spawned (effects_of (apiLogOn o w)) = [].
Proof.
  by_outcome o w; cbn; repeat split; auto.
Qed.

(** X13. The form an attempt posts has the four fields [format],
    [steamid], [sessionkey] and [encrypted_loginkey], no other, and one
    value for each. *)
Theorem apiLogOn_form_fields o w url data :
  In (url, data) (requests (effects_of (apiLogOn o w))) ->
  forall key,
    (In key form_fields -> exists value, data !! key = Some [value])
    /\ (~ In key form_fields -> data !! key = None).
Proof.
  by_outcome o w; intros Hin; cbn in Hin;
    try (destruct Hin as [[= <- <-] | []]); try (destruct Hin).
  all: match goal with
       | P : Payload _ _ _ |- _ => destruct P as [src ck ciph cl ? ? ? ?]
       end.
  all: intros key; split; intros Hk.
  all: try (cbn in Hk;
            repeat (destruct Hk as [<- | Hk]; [eexists; reflexivity |]);
            contradiction).
  all: unfold Values_Add.
  all: rewrite !lookup_insert_ne, lookup_empty;
         [reflexivity | intros <-; apply Hk; cbn; tauto ..].
Qed.

(** An attempt answered with status 401 arms the flag and changes nothing
    else. *)
Lemma apiLogOn_stale_web o w resp :
  answered o w resp ->
  StatusCode resp = 401 ->
  web_of (apiLogOn o w) = set_relogOnNonce 1 w.
Proof.
  unfold answered.
  by_outcome o w; cbn; intros (url & dat & Hin & Hpost) H401;
    try (destruct Hin as [[= <- <-] | []]); try (destruct Hin);
    try congruence;
    try (rewrite Hpost in *; congruence).
Qed.

(** X14. An HTTP call that fails ends the attempt with the error of the
    call; the [Web] value is as before and nothing is emitted or
    written. *)
Theorem apiLogOn_transport_error o w url data e :
  In (url, data) (requests (effects_of (apiLogOn o w))) ->
  http_PostForm o url data = Fail e ->
  result_of (apiLogOn o w) = Some e
  /\ web_of (apiLogOn o w) = w
  /\ emitted (effects_of (apiLogOn o w)) = []
  /\ written (effects_of (apiLogOn o w)) = [].
Proof.
  by_outcome o w; cbn; intros Hin Hpost;
    try (destruct Hin as [[= <- <-] | []]); try (destruct Hin);
    try (rewrite Hpost in *; try discriminate).
  repeat split; congruence.
Qed.

Lemma apiLogOn_signals o w :
  signals (effects_of (apiLogOn o w)) =
    match result_of (apiLogOn o w) with
    | None => 1%nat
    | Some _ => 0%nat
    end.
Proof. by_outcome o w; reflexivity. Qed.

Lemma signals_app t1 t2 : signals (t1 ++ t2) = (signals t1 + signals t2)%nat.
Proof.
  unfold signals, emitted, written. rewrite !omap_app, !length_app. lia.
Qed.

(** X15. Every run of the goroutine of [LogOn] gives exactly one signal:
    one [WebLoggedOnEvent], or one [WebLogOnErrorEvent], or one request
    for a fresh nonce. *)
Theorem LogOn_go_one_signal env w :
  signals (effects_of (LogOn_go env w)) = 1%nat.
Proof.
  rewrite LogOn_go_unfold.
  pose proof (apiLogOn_signals (env 0%nat) w) as S1.
  pose proof (apiLogOn_signals (env 1%nat) (web_of (attempt1 env w))) as S2.
  pose proof (apiLogOn_signals (env 2%nat) (web_of (attempt2 env w))) as S3.
  fold (attempt1 env w) in S1.
  fold (attempt2 env w) in S2.
  fold (attempt3 env w) in S3.
  destruct (result_of (attempt1 env w));
    [destruct (result_of (attempt2 env w));
     [destruct (result_of (attempt3 env w)) |] |];
    rewrite effects_of_run, ?signals_app, ?S1, ?S2, ?S3; reflexivity.
Qed.

(** X16. When the goroutine emits a [WebLogOnErrorEvent], it made three
    attempts and all of them failed: the [Web] value is as it was before
    the goroutine ran, no message was written and the event is the only
    one emitted. *)
Theorem LogOn_go_failure_keeps_state env w e :
  In (Emit (WebLogOnErrorEvent e)) (effects_of (LogOn_go env w)) ->
  web_of (LogOn_go env w) = w
  /\ attempts (effects_of (LogOn_go env w)) = 3%nat
  /\ written (effects_of (LogOn_go env w)) = []
  /\ emitted (effects_of (LogOn_go env w)) = [WebLogOnErrorEvent e].
Proof.
  rewrite LogOn_go_unfold.
  assert (Hno : forall o w', ~ In (Emit (WebLogOnErrorEvent e))
                               (effects_of (apiLogOn o w'))).
  { intros o w'. by_outcome o w'; cbn; intuition discriminate. }
  pose proof (apiLogOn_one_attempt (env 0%nat) w) as (A1 & _ & _).
  pose proof (apiLogOn_one_attempt (env 1%nat) (web_of (attempt1 env w)))
    as (A2 & _ & _).
  pose proof (apiLogOn_one_attempt (env 2%nat) (web_of (attempt2 env w)))
    as (A3 & _ & _).
  pose proof (Hno (env 0%nat) w) as N1.
  pose proof (Hno (env 1%nat) (web_of (attempt1 env w))) as N2.
  pose proof (Hno (env 2%nat) (web_of (attempt2 env w))) as N3.
  fold (attempt1 env w) in A1, N1.
  fold (attempt2 env w) in A2, N2.
  fold (attempt3 env w) in A3, N3.
  destruct (result_of (attempt1 env w)) as [e1 |] eqn:R1;
    [| rewrite effects_of_run; intros Hin; contradiction].
  destruct (result_of (attempt2 env w)) as [e2 |] eqn:R2;
    [| rewrite effects_of_run, in_app_iff; intros Hin; tauto].
  destruct (result_of (attempt3 env w)) as [e3 |] eqn:R3;
    [| rewrite effects_of_run, !in_app_iff; intros Hin; tauto].
  rewrite !effects_of_run, !in_app_iff. intros Hin.
  assert (e3 = e) as ->.
  { destruct Hin as [? | [? | [? | [[= ->] | []]]]]; tauto. }
  pose proof (apiLogOn_error_web (env 0%nat) w e1 R1) as (W1 & E1 & V1).
  pose proof (apiLogOn_error_web (env 1%nat) _ e2 R2) as (W2 & E2 & V2).
  pose proof (apiLogOn_error_web (env 2%nat) _ e R3) as (W3 & E3 & V3).
  fold (attempt1 env w) in W1, E1, V1.
  fold (attempt2 env w) in W2, E2, V2.
  fold (attempt3 env w) in W3, E3, V3.
  unfold web_of at 1. cbn [fst snd].
  rewrite !attempts_app, A1, A2, A3.
  unfold written, emitted in *. rewrite !omap_app.
  rewrite E1, E2, E3, V1, V2, V3.
  repeat split. congruence.
Qed.

(** X17. Whatever the packet, [HandlePacket] leaves the two credentials
    and the account id alone, sends no request, makes no attempt, writes
    at most one message and starts at most one goroutine; it emits no
    event other than [WebSessionIDEvent]; and [relogOnNonce] is left as
    it was or goes from 1 to 0.  A packet of any other kind than the two
    handled has no effect at all. *)
Theorem HandlePacket_frame (p : Packet) w :
  SteamLogin (web_of (HandlePacket p w)) = SteamLogin w
  /\ SteamLoginSecure (web_of (HandlePacket p w)) = SteamLoginSecure w
  /\ client_SteamID (web_of (HandlePacket p w)) = client_SteamID w
  /\ requests (effects_of (HandlePacket p w)) = []
  /\ attempts (effects_of (HandlePacket p w)) = 0%nat
  /\ (length (written (effects_of (HandlePacket p w))) <= 1)%nat
  /\ (length (spawned (effects_of (HandlePacket p w))) <= 1)%nat
  /\ (forall ev, In ev (emitted (effects_of (HandlePacket p w))) ->
                 ev = WebSessionIDEvent)
  /\ (relogOnNonce (web_of (HandlePacket p w)) = relogOnNonce w
      \/ (relogOnNonce w = 1 /\ relogOnNonce (web_of (HandlePacket p w)) = 0))
  /\ (packet_EMsg p <> EMsg_ClientNewLoginKey ->
      packet_EMsg p <> EMsg_ClientRequestWebAPIAuthenticateUserNonceResponse ->
      HandlePacket p w = (tt, w, [])).
Proof.
  unfold HandlePacket.
  destruct (packet_EMsg p) eqn:Hk;
    try (cbn; repeat split; auto; intros ev []).
  - unfold handleNewLoginKey.
    destruct (ReadProtoMsg_NewLoginKey p); run_method; cbn;
      repeat split; auto; try lia; try contradiction;
      intros ev [<- | []]; reflexivity.
  - destruct (ReadProtoMsg_AuthNonceResponse p) as [msg | e] eqn:Hread.
    + destruct (Z.eq_dec (relogOnNonce w) 1) as [H1 | H1].
      * rewrite (handleAuthNonceResponse_armed p msg w Hread H1).
        unfold LogOn. run_method. cbn [webLoginKey set_relogOnNonce set_webLoginKey].
        destruct (String.eqb (GetWebapiAuthenticateUserNonce msg) EmptyString);
          cbn; repeat split; auto; try lia; try contradiction;
          intros ev [].
      * rewrite (handleAuthNonceResponse_idle p msg w Hread H1).
        cbn; repeat split; auto; try contradiction; intros ev [].
    + unfold handleAuthNonceResponse. rewrite Hread. run_method. cbn.
      repeat split; auto; try contradiction; intros ev [].
Qed.

(** X18. A packet of one of the two handled kinds whose body cannot be
    read is logged once and dropped: the [Web] value is as before, so a
    nonce response that cannot be read does not clear [relogOnNonce]. *)
Theorem HandlePacket_malformed (p : Packet) w e :
  (packet_EMsg p = EMsg_ClientNewLoginKey
   /\ ReadProtoMsg_NewLoginKey p = Fail e)
  \/ (packet_EMsg p = EMsg_ClientRequestWebAPIAuthenticateUserNonceResponse
      /\ ReadProtoMsg_AuthNonceResponse p = Fail e) ->
  HandlePacket p w = (tt, w, [Errorf "web: error reading message: %v" e]).
Proof.
  unfold HandlePacket, handleNewLoginKey, handleAuthNonceResponse.
  intros [[-> ->] | [-> ->]]; reflexivity.
Qed.

(** X19. Different ids give different session ids: when two
    new-login-key messages leave the same [SessionID], they carried the
    same unique id. *)
Theorem handleNewLoginKey_injective (p1 p2 : Packet) msg1 msg2 w1 w2 :
  ReadProtoMsg_NewLoginKey p1 = Ok msg1 ->
  ReadProtoMsg_NewLoginKey p2 = Ok msg2 ->
  0 <= GetUniqueId msg1 < 2 ^ 32 ->
  0 <= GetUniqueId msg2 < 2 ^ 32 ->
  SessionID (web_of (handleNewLoginKey p1 w1)) =
    SessionID (web_of (handleNewLoginKey p2 w2)) ->
  GetUniqueId msg1 = GetUniqueId msg2.
Proof.
  intros H1 H2 R1 R2. unfold handleNewLoginKey. rewrite H1, H2.
  run_method. cbn [SessionID set_SessionID]. intros Heq.
  apply (f_equal base64.DecodeString) in Heq.
  rewrite !DecodeString_EncodeToString in Heq. injection Heq as Heq.
  apply (f_equal string_of_bytes) in Heq.
  unfold string_of_bytes, bytes_of_string in Heq.
  rewrite !string_of_list_byte_of_string in Heq.
  apply (f_equal strconv.ParseUint) in Heq.
  rewrite !FormatUint_ParseUint in Heq by lia. congruence.
Qed.

(** X20. The recovery from a stale key, end to end: after an attempt
    answered with status 401, a nonce response carrying a non-empty
    nonce stores it, sets [relogOnNonce] back to 0 and starts exactly one
    goroutine; the same response delivered once more starts none. *)
Theorem stale_key_recovery o w resp (p : Packet) msg :
  answered o w resp ->
  StatusCode resp = 401 ->
  ReadProtoMsg_AuthNonceResponse p = Ok msg ->
  GetWebapiAuthenticateUserNonce msg <> EmptyString ->
  handleAuthNonceResponse p (web_of (apiLogOn o w)) =
    (tt,
     set_relogOnNonce 0
       (set_webLoginKey (GetWebapiAuthenticateUserNonce msg)
          (set_relogOnNonce 1 w)),
     [Go LogOn_func1])
  /\ relogOnNonce
       (web_of (handleAuthNonceResponse p (web_of (apiLogOn o w)))) = 0
  /\ effects_of
       (handleAuthNonceResponse p
          (web_of (handleAuthNonceResponse p (web_of (apiLogOn o w))))) = [].
Proof.
  intros Hans H401 Hread Hne.
  rewrite (apiLogOn_stale_web o w resp Hans H401).
  rewrite (handleAuthNonceResponse_armed p msg (set_relogOnNonce 1 w)
             Hread eq_refl).
  rewrite LogOn_initialized by exact Hne.
  unfold web_of, effects_of, result_of. cbn [fst snd app report].
  split; [reflexivity |]. split; [reflexivity |].
  rewrite (handleAuthNonceResponse_idle p msg _ Hread) by (cbn; lia).
  reflexivity.
Qed.

(** X21. On every [Web] value that can be reached from a new one by
    packets, calls of [LogOn] and attempts, in any order, [relogOnNonce]
    is 0 or 1. *)
Theorem relogOnNonce_is_flag (steamID : Z) w :
  rtc Step (NewWeb steamID) w -> relogOnNonce w = 0 \/ relogOnNonce w = 1.
Proof.
  revert w. apply rtc_ind_r.
  - left. reflexivity.
  - intros w1 w2 _ Hstep IH. eapply Step_relogOnNonce; eassumption.
Qed.

End WebFacts.

(** * The game coordinator *)

Section GCFacts.

Context {Handler GCPacket : Type}.
Variable ReadProtoMsg : gc.Packet -> gc.CMsgGCClient.
Variable NewGCPacket : gc.CMsgGCClient -> result GCPacket.

#[local] Abbreviation GCHandlePacket :=
  (gc.HandlePacket (Handler := Handler) ReadProtoMsg NewGCPacket).

Lemma dispatch_map (hs : list Handler) (p : GCPacket) :
  gc.dispatch hs p = map (fun h => gc.HandleGCPacket h p) hs.
Proof. induction hs as [| h hs IH]; cbn; [| rewrite IH]; reflexivity. Qed.

Lemma register_all_handlers (g : gc.GameCoordinator) (hs : list Handler) :
  gc.handlers (gc.register_all g hs) = gc.handlers g ++ hs.
Proof.
  revert g. induction hs as [| h hs IH]; intros g; cbn.
  - now rewrite app_nil_r.
  - unfold gc.register_all in IH. rewrite IH. cbn. now rewrite <- app_assoc.
Qed.

(** X22. A packet from the game coordinator that decodes is handed to
    every registered handler exactly once, in the order in which the
    handlers were registered. *)
Theorem GC_HandlePacket_in_registration_order
    (hs : list Handler) (packet : gc.Packet) (p : GCPacket) :
  gc.packet_EMsg packet = gc.EMsg_ClientFromGC ->
  NewGCPacket (ReadProtoMsg packet) = Ok p ->
  GCHandlePacket (gc.register_all gc.newGC hs) packet =
    map (fun h => gc.HandleGCPacket h p) hs.
Proof.
  intros Hk Hp. unfold gc.HandlePacket. rewrite Hk, Hp. cbn [gc.is_ClientFromGC negb].
  now rewrite dispatch_map, register_all_handlers.
Qed.

(** X23. [HandlePacket] calls a handler only with a packet of kind
    [ClientFromGC] that decoded, and only a registered one; it never
    writes a message, and it logs only the decoding error. *)
Theorem GC_HandlePacket_only_decoded
    (g : gc.GameCoordinator) (packet : gc.Packet) (e : gc.Effect) :
  In e (GCHandlePacket g packet) ->
  gc.packet_EMsg packet = gc.EMsg_ClientFromGC
  /\ match e with
     | gc.HandleGCPacket h p =>
         NewGCPacket (ReadProtoMsg packet) = Ok p /\ In h (gc.handlers g)
     | gc.Errorf format err =>
         NewGCPacket (ReadProtoMsg packet) = Fail err
         /\ GCHandlePacket g packet = [e]
     | gc.Write _ => False
     end.
Proof.
  unfold gc.HandlePacket.
  destruct (gc.packet_EMsg packet); cbn [gc.is_ClientFromGC negb];
    try (intros []).
  destruct (NewGCPacket (ReadProtoMsg packet)) as [p | err].
  - rewrite dispatch_map. intros Hin. apply in_map_iff in Hin as (h & <- & Hh).
    repeat split; assumption.
  - intros [<- | []]. repeat split.
Qed.

End GCFacts.

Lemma lor_protoMask_bits (t : Z) :
  0 <= t < 2 ^ 32 ->
  0 <= Z.lor t gc.protoMask < 2 ^ 32
  /\ Z.testbit (Z.lor t gc.protoMask) 31 = true
  /\ Z.land (Z.lor t gc.protoMask) 0x7fffffff = Z.land t 0x7fffffff.
Proof.
  intros Ht. unfold gc.protoMask.
  change 0x80000000 with (2 ^ 31). change 0x7fffffff with (Z.ones 31).
  assert (Hbit : Z.testbit (Z.lor t (2 ^ 31)) 31 = true).
  { rewrite Z.lor_spec, Z.pow2_bits_true by lia. apply orb_true_r. }
  split; [| split; [exact Hbit |]].
  - assert (Hnn : 0 <= Z.lor t (2 ^ 31)) by (apply Z.lor_nonneg; lia).
    split; [exact Hnn |].
    assert (Hpos : 0 < Z.lor t (2 ^ 31)).
    { destruct (Z.eq_dec (Z.lor t (2 ^ 31)) 0) as [E | E]; [| lia].
      rewrite E, Z.bits_0 in Hbit. discriminate. }
    apply Z.log2_lt_pow2; [exact Hpos |].
    rewrite Z.log2_lor by lia.
    rewrite Z.log2_pow2 by lia.
    destruct (Z.eq_dec t 0) as [-> | Hne]; [cbn; lia |].
    assert (Z.log2 t < 32) by (apply Z.log2_lt_pow2; lia). lia.
  - apply Z.bits_inj'. intros i Hi.
    rewrite !Z.land_spec, Z.lor_spec.
    destruct (Z.eq_dec i 31) as [-> | Hne].
    + rewrite Z.ones_spec_high by lia. now rewrite !andb_false_r.
    + rewrite Z.pow2_bits_false by lia. now rewrite orb_false_r.
Qed.

(** X24. [Write] sends one [ClientToGC] message that carries the app id
    and the serialized body as they are.  Its type field keeps the low
    31 bits of the message type and stays a 32-bit value; bit 31 is set
    for every message that is a protobuf, and is otherwise as in the
    message type. *)
Theorem GC_Write_msgtype {Handler GCPacket : Type} (msg : gc.IGCMsg) :
  0 <= gc.GetMsgType msg < 2 ^ 32 ->
  exists msgType,
    gc.GC_Write (Handler := Handler) (GCPacket := GCPacket) msg =
      [gc.Write
         (gc.NewClientMsgProtobuf gc.EMsg_ClientToGC
            (gc.Body_GCClient
               {| gc.Appid := Some (gc.GetAppId msg);
                  gc.Msgtype := Some msgType;
                  gc.Payload := gc.Serialize msg |}))]
    /\ 0 <= msgType < 2 ^ 32
    /\ Z.land msgType 0x7fffffff = Z.land (gc.GetMsgType msg) 0x7fffffff
    /\ Z.testbit msgType 31 =
         (gc.IsProto msg || Z.testbit (gc.GetMsgType msg) 31).
Proof.
  intros Ht. unfold gc.GC_Write.
  destruct (lor_protoMask_bits _ Ht) as (Hr & Hb & Hl).
  eexists. split; [reflexivity |].
  destruct (gc.IsProto msg); cbn [orb].
  - repeat split; try apply Hr; assumption.
  - repeat split; try apply Ht.
Qed.

Lemma games_from_app (games : list gc.GamePlayed) (appIds : list Z) :
  gc.games_from games appIds =
    games ++ map (fun appId => {| gc.GameId := Some appId |}) appIds.
Proof.
  revert games. induction appIds as [| a l IH]; intros games; cbn.
  - now rewrite app_nil_r.
  - rewrite IH. now rewrite <- app_assoc.
Qed.

(** X25. [SetGamesPlayed] writes one [ClientGamesPlayed] message that
    lists the given ids, each once and in the given order; called with
    no id it writes the message with an empty list. *)
Theorem SetGamesPlayed_announces {Handler GCPacket : Type} (appIds : list Z) :
  exists m,
    gc.SetGamesPlayed (Handler := Handler) (GCPacket := GCPacket) appIds =
      [gc.Write m]
    /\ gc.msg_EMsg m = gc.EMsg_ClientGamesPlayed
    /\ gc.msg_Body m =
         gc.Body_GamesPlayed
           (map (fun appId => {| gc.GameId := Some appId |}) appIds)
    /\ gc.announced (gc.Write (Handler := Handler) (GCPacket := GCPacket) m) =
         appIds.
Proof.
  unfold gc.SetGamesPlayed. eexists. split; [reflexivity |].
  cbn [gc.msg_EMsg gc.msg_Body gc.NewClientMsgProtobuf gc.announced].
  rewrite games_from_app. cbn [app].
  repeat split.
  induction appIds as [| a l IH]; cbn; [reflexivity |]. now rewrite IH.
Qed.

(** * The further properties on concrete inputs *)

Lemma range_assign_any_order_witness :
  inventory.range_assign [("2", "b"); ("1", "a")]%string
    (Some {[ "2" := "old" ]}%string) =
    Returns (Some ({[ "1" := "a"; "2" := "b" ]} ∪ {[ "2" := "old" ]})%string).
Proof.
  apply (range_assign_any_order
           ({[ "1" := "a"; "2" := "b" ]}%string : gmap string string)).
  vm_compute. first [reflexivity | apply perm_swap].
Defined.

Lemma Merge_later_wins_witness :
  exists merged,
    inventory.Merge [inventory.inv_a; inventory.inv_b] = Returns merged
    /\ inventory.table (inventory.Items merged) !! "2"%string = Some "bow"%string
    /\ inventory.table (inventory.Items merged) !! "1"%string = Some "sword"%string.
Proof.
  destruct (Merge_later_wins inventory.inv_a inventory.inv_b _ _ _
              eq_refl eq_refl eq_refl) as (merged & Hm & Hi & _).
  exists merged. split; [exact Hm |].
  split; rewrite Hi; reflexivity.
Defined.

Lemma Merge_app_witness :
  exists inv',
    inventory.Merge [inventory.inv_a; inventory.inv_b] = Returns inv'
    /\ inventory.Merge [inventory.inv_a; inventory.inv_b; inventory.inv_a] =
       inventory.Merge [inv'; inventory.inv_a].
Proof.
  eexists. split; [reflexivity |].
  apply (Merge_app inventory.inv_a _ [inventory.inv_b] [inventory.inv_a]).
  reflexivity.
Defined.

Lemma Merge_panics_witness :
  inventory.Merge [inventory.inv_nil; inventory.inv_b; inventory.inv_a] =
    Panics "assignment to entry in nil map".
Proof.
  destruct (Merge_panics inventory.inv_nil inventory.inv_b) as [_ H].
  - reflexivity.
  - vm_compute. discriminate.
  - apply H.
Defined.

Lemma GetFullInventory_single_page_witness :
  inventory.GetFullInventory (Ok (Some (inventory.page_a false)))
    (fun _ => Ok (Some inventory.page_b)) 1 =
    Some (Returns (Ok inventory.inv_a), []).
Proof.
  apply (GetFullInventory_single_page _ _ (inventory.page_a false));
    reflexivity.
Defined.

Lemma GetFullInventory_second_page_fails_witness :
  inventory.GetFullInventory (Ok (Some (inventory.page_a true)))
    (fun _ => Ok (Some inventory.page_failed)) 1 =
    Some (Returns (Fail (inventory.api_call_failed "private")), [2]).
Proof.
  destruct (GetFullInventory_second_page_fails
              (Ok (Some (inventory.page_a true)))
              (fun _ => Ok (Some inventory.page_failed))
              (inventory.page_a true) 0) as [_ H].
  - reflexivity.
  - reflexivity.
  - reflexivity.
  - apply (H inventory.page_failed); reflexivity.
Defined.

Lemma GetFullInventory_second_page_panics_witness :
  inventory.GetFullInventory (Ok (Some (inventory.page_a true)))
    (fun _ => Ok (Some inventory.page_b)) 2 =
    Some (Panics nil_dereference, [2]).
Proof.
  eapply (GetFullInventory_second_page_panics
            (Ok (Some (inventory.page_a true)))
            (fun _ => Ok (Some inventory.page_b))
            (inventory.page_a true) inventory.page_b);
    reflexivity.
Defined.

Lemma Get_insert_witness :
  inventory.InventoryApps_Get (<[strconv.FormatUint 730 := "CS"%string]> ∅) 440 =
    Fail (Err "inventory app not found")
  /\ inventory.InventoryApps_Get
       (<[strconv.FormatUint 730 := "CS"%string]> ∅) 730 = Ok "CS"%string.
Proof.
  split.
  - destruct (Get_insert (∅ : gmap string string) 730 440 "CS"%string)
      as [H _]; [lia | lia |]. exact H.
  - destruct (Get_insert (∅ : gmap string string) 730 730 "CS"%string)
      as [H _]; [lia | lia |]. exact H.
Defined.

Lemma apiLogOn_error_keeps_state_witness :
  web_of (apiLogOn Demo.unreachable Demo.web0) = Demo.web0.
Proof.
  destruct (@apiLogOn_error_keeps_state bytes Demo.collaborators
              Demo.unreachable Demo.web0 (Err "dial tcp: i/o timeout"))
    as (H & _).
  - reflexivity.
  - exact H.
Defined.

Lemma apiLogOn_form_fields_witness :
  exists url data,
    In (url, data)
      (requests (effects_of (apiLogOn (Demo.answering (Ok Demo.resp200)) Demo.web0)))
    /\ data !! "format"%string = Some ["json"%string]
    /\ data !! "password"%string = None.
Proof.
  eexists _, _. split; [left; reflexivity |].
  split; [reflexivity |].
  eapply (@apiLogOn_form_fields bytes Demo.collaborators
            (Demo.answering (Ok Demo.resp200)) Demo.web0).
  - left. reflexivity.
  - cbn. intuition discriminate.
Defined.

Lemma apiLogOn_transport_error_witness :
  result_of (apiLogOn Demo.unreachable Demo.web0) =
    Some (Err "dial tcp: i/o timeout")
  /\ web_of (apiLogOn Demo.unreachable Demo.web0) = Demo.web0.
Proof.
  edestruct (@apiLogOn_transport_error bytes Demo.collaborators
               Demo.unreachable Demo.web0 AuthenticateUser_URL)
    as (H1 & H2 & _).
  - left. reflexivity.
  - reflexivity.
  - split; assumption.
Defined.

Lemma LogOn_go_failure_keeps_state_witness :
  web_of (LogOn_go (fun _ => Demo.unreachable) Demo.web0) = Demo.web0
  /\ attempts (effects_of (LogOn_go (fun _ => Demo.unreachable) Demo.web0)) =
     3%nat.
Proof.
  destruct (@LogOn_go_failure_keeps_state bytes Demo.collaborators
              (fun _ => Demo.unreachable) Demo.web0
              (Err "dial tcp: i/o timeout")) as (H1 & H2 & _).
  - vm_compute. do 6 right. left. reflexivity.
  - split; assumption.
Defined.

Lemma HandlePacket_malformed_witness :
  HandlePacket
    {| packet_EMsg := EMsg_ClientRequestWebAPIAuthenticateUserNonceResponse;
       packet_Data := [x01] |}
    (set_relogOnNonce 1 Demo.web0) =
    (tt, set_relogOnNonce 1 Demo.web0,
     [Errorf "web: error reading message: %v"
        (Err "proto: cannot parse invalid wire-format data")]).
Proof.
  apply (@HandlePacket_malformed bytes Demo.collaborators).
  right. split; reflexivity.
Defined.

Lemma handleNewLoginKey_injective_witness :
  GetUniqueId {| NewLoginKey_UniqueId := Some 12345 |} =
    GetUniqueId {| NewLoginKey_UniqueId := Some 12345 |}.
Proof.
  apply (@handleNewLoginKey_injective bytes Demo.collaborators
           Demo.packet_NewLoginKey_12345 Demo.packet_NewLoginKey_12345
           _ _ Demo.web0 (NewWeb 1)).
  - reflexivity.
  - reflexivity.
  - cbn. lia.
  - cbn. lia.
  - reflexivity.
Defined.

Lemma stale_key_recovery_witness :
  effects_of
    (handleAuthNonceResponse Demo.packet_Nonce_fresh
       (web_of (apiLogOn (Demo.answering (Ok Demo.resp401)) Demo.web0))) =
    [Go LogOn_func1].
Proof.
  destruct (@stale_key_recovery bytes Demo.collaborators
              (Demo.answering (Ok Demo.resp401)) Demo.web0 Demo.resp401
              Demo.packet_Nonce_fresh
              {| WebapiAuthenticateUserNonce := Some "fresh"%string |})
    as (H & _).
  - eexists _, _. split; [left; reflexivity | reflexivity].
  - reflexivity.
  - reflexivity.
  - discriminate.
  - rewrite H. reflexivity.
Defined.

Lemma relogOnNonce_is_flag_witness :
  relogOnNonce
    (web_of (apiLogOn (Demo.answering (Ok Demo.resp401)) (NewWeb 1))) = 0
  \/ relogOnNonce
       (web_of (apiLogOn (Demo.answering (Ok Demo.resp401)) (NewWeb 1))) = 1.
Proof.
  apply (@relogOnNonce_is_flag bytes Demo.collaborators 1).
  apply rtc_once. apply step_attempt.
Defined.

Lemma GC_HandlePacket_in_registration_order_witness :
  gc.HandlePacket DemoGC.read DemoGC.decode
    (gc.register_all gc.newGC [7; 3; 5]%nat) DemoGC.hello =
    [gc.HandleGCPacket 7%nat [x01; x02]; gc.HandleGCPacket 3%nat [x01; x02];
     gc.HandleGCPacket 5%nat [x01; x02]].
Proof.
  apply (GC_HandlePacket_in_registration_order DemoGC.read DemoGC.decode
           [7; 3; 5]%nat DemoGC.hello [x01; x02]); reflexivity.
Defined.

Lemma GC_HandlePacket_only_decoded_witness :
  DemoGC.decode (DemoGC.read DemoGC.hello) = Ok [x01; x02]
  /\ In 3%nat (gc.handlers (gc.register_all gc.newGC [7; 3]%nat)).
Proof.
  destruct (GC_HandlePacket_only_decoded DemoGC.read DemoGC.decode
              (gc.register_all gc.newGC [7; 3]%nat) DemoGC.hello
              (gc.HandleGCPacket 3%nat [x01; x02])) as [_ H].
  - right. left. reflexivity.
  - exact H.
Defined.

Lemma GC_Write_msgtype_witness :
  exists msgType,
    gc.GC_Write (Handler := nat) (GCPacket := bytes) DemoGC.proto_msg =
      [gc.Write
         (gc.NewClientMsgProtobuf gc.EMsg_ClientToGC
            (gc.Body_GCClient
               {| gc.Appid := Some 570;
                  gc.Msgtype := Some msgType;
                  gc.Payload := [x0a; x00] |}))]
    /\ Z.land msgType 0x7fffffff = 4006
    /\ Z.testbit msgType 31 = true.
Proof.
  destruct (@GC_Write_msgtype nat bytes DemoGC.proto_msg)
    as (t & H & _ & Hl & Hb).
  - cbn. lia.
  - exists t. repeat split; assumption.
Defined.
